(** * Book management API: a shallow embedding of [book_mgt_api.py]

    The service keeps two tables, [books] and [reviews], behind eight request
    handlers.  Each handler runs inside its own database session; the session
    is modelled as a small state-and-exception monad over the committed store,
    the objects the session tracks, and the list of awaited database calls.

    The store is PostgreSQL reached through asyncpg: integer columns and
    integer bind parameters are 32 bits wide, text cannot hold the character
    U+0000, a sequence value once drawn is not given back, and a query without
    ORDER BY lists the rows in the order their current versions were written
    (the place of a row that is gone is not taken by a later one: VACUUM runs
    outside the requests described here). *)

From Stdlib Require Import ZArith List String Ascii QArith Qabs Lia Bool Sorted.
Import ListNotations.
Local Open Scope string_scope.
Local Open Scope Z_scope.

(** ** Exceptions *)

Inductive Exception : Type :=
| HTTPException (status_code : Z) (detail : string) (headers : list (string * string))
| RequestValidationError      (* pydantic refuses the request body *)
| IntegrityError              (* the store refuses a row: CHECK, FOREIGN KEY, PRIMARY KEY *)
| DBAPIError                  (* the driver or the store refuses a statement or a parameter *)
| MultipleResultsFound        (* scalar_one_or_none over more than one row *)
| InvalidRequestError         (* the session cannot serve the call on that object *)
| PasswordValueError          (* passlib refuses the password: NUL, or too long *)
| ZeroDivisionError
| OverflowError
| TypeError.

Definition HTTP_401_UNAUTHORIZED : Z := 401.

Definition Unauthorized : Exception :=
  HTTPException HTTP_401_UNAUTHORIZED "Incorrect username or password"
                [("WWW-Authenticate", "Basic")].

Definition NotFound (detail : string) : Exception := HTTPException 404 detail [].

(** ** Strings and integers as the libraries see them *)

(** A Python [str] is modelled by its characters, one [ascii] per code point
    below 256. *)
Definition is_ascii (c : ascii) : bool :=
  match c with
  | Ascii _ _ _ _ _ _ _ b7 => negb b7
  end.

Fixpoint all_ascii (s : string) : bool :=
  match s with
  | EmptyString => true
  | String c t => is_ascii c && all_ascii t
  end.

Fixpoint has_nul (s : string) : bool :=
  match s with
  | EmptyString => false
  | String c t => Ascii.eqb c zero || has_nul t
  end.

Definition opt_has_nul (s : option string) : bool :=
  match s with
  | Some x => has_nul x
  | None => false
  end.

(** The UTF-8 bytes of a string of code points below 256. *)
Fixpoint utf8 (s : string) : string :=
  match s with
  | EmptyString => EmptyString
  | String c t =>
      if is_ascii c then String c (utf8 t)
      else String (ascii_of_N (192 + N_of_ascii c / 64))
                  (String (ascii_of_N (128 + N_of_ascii c mod 64)) (utf8 t))
  end.

Definition INT32_MIN : Z := -2147483648.
Definition INT32_MAX : Z := 2147483647.

(** What asyncpg accepts for an int4 parameter. *)
Definition int32 (z : Z) : bool := (INT32_MIN <=? z) && (z <=? INT32_MAX).

Definition opt_int32 (z : option Z) : bool :=
  match z with
  | Some x => int32 x
  | None => true
  end.

Definition opt_Z_eqb (a b : option Z) : bool :=
  match a, b with
  | Some x, Some y => x =? y
  | None, None => true
  | _, _ => false
  end.

Definition opt_string_eqb (a b : option string) : bool :=
  match a, b with
  | Some x, Some y => String.eqb x y
  | None, None => true
  | _, _ => false
  end.

(** ** Database models *)

Module Book.
Record t : Type := mk
  { id : option Z;              (* primary key, None until the row is inserted *)
    title : string;
    author : string;
    genre : option string;
    year_published : option Z;
    summary : option string }.
End Book.

Module Review.
Record t : Type := mk
  { id : option Z;
    book_id : Z;                (* ForeignKey('books.id', ondelete='CASCADE') *)
    user_id : Z;
    review_text : option string;   (* Column(Text): nullable *)
    rating : Z }.               (* CheckConstraint('rating >= 1 AND rating <= 5') *)
End Review.

(** ** Request bodies *)

Inductive json : Type :=
| JNull
| JBool (b : bool)
| JInt (z : Z)
| JReal (q : Q)
| JStr (s : string)
| JArray                      (* arrays and nested objects: never a valid scalar field *)
| JObject.

Fixpoint member (key : string) (members : list (string * json)) : option json :=
  match members with
  | [] => None
  | (k, v) :: rest => if String.eqb k key then Some v else member key rest
  end.

(** How pydantic turns a JSON value that is present into a Python [int] or
    [str] depends on its version and mode; the rules are a parameter of the
    validation. *)
Record Coercion : Type := mkCoercion
  { as_int : json -> option Z;
    as_str : json -> option string }.

(** A field without a default: the key must be there and hold a value. *)
Definition required {A} (f : json -> option A) (key : string)
           (body : list (string * json)) : Exception + A :=
  match member key body with
  | None | Some JNull => inl RequestValidationError
  | Some v =>
      match f v with
      | Some a => inr a
      | None => inl RequestValidationError
      end
  end.

(** An [Optional] field with default None. *)
Definition optional {A} (f : json -> option A) (key : string)
           (body : list (string * json)) : Exception + option A :=
  match member key body with
  | None | Some JNull => inr None
  | Some v =>
      match f v with
      | Some a => inr (Some a)
      | None => inl RequestValidationError
      end
  end.

Module BookCreate.
Record t : Type := mk
  { title : string;
    author : string;
    genre : option string;
    year_published : option Z;
    summary : option string }.

Definition validate (co : Coercion) (body : list (string * json)) : Exception + t :=
  match required (as_str co) "title" body with
  | inl e => inl e
  | inr title =>
  match required (as_str co) "author" body with
  | inl e => inl e
  | inr author =>
  match optional (as_str co) "genre" body with
  | inl e => inl e
  | inr genre =>
  match optional (as_int co) "year_published" body with
  | inl e => inl e
  | inr year_published =>
  match optional (as_str co) "summary" body with
  | inl e => inl e
  | inr summary => inr (mk title author genre year_published summary)
  end end end end end.
End BookCreate.

Module ReviewCreate.
Record t : Type := mk
  { user_id : Z;
    review_text : string;
    rating : Z }.

(** None of the three fields has a default. *)
Definition validate (co : Coercion) (body : list (string * json)) : Exception + t :=
  match required (as_int co) "user_id" body with
  | inl e => inl e
  | inr user_id =>
  match required (as_str co) "review_text" body with
  | inl e => inl e
  | inr review_text =>
  match required (as_int co) "rating" body with
  | inl e => inl e
  | inr rating => inr (mk user_id review_text rating)
  end end end.
End ReviewCreate.

(** The call [Book] on the unpacked [book.dict()]: the dict carries all five
    keys, unset ones as None. *)
Definition Book_init (book : BookCreate.t) : Book.t :=
  {| Book.id := None;
     Book.title := BookCreate.title book;
     Book.author := BookCreate.author book;
     Book.genre := BookCreate.genre book;
     Book.year_published := BookCreate.year_published book;
     Book.summary := BookCreate.summary book |}.

(** The call [Review] on the unpacked [review.dict()] and [book_id=id]. *)
Definition Review_init (review : ReviewCreate.t) (book_id : Z) : Review.t :=
  {| Review.id := None;
     Review.book_id := book_id;
     Review.user_id := ReviewCreate.user_id review;
     Review.review_text := Some (ReviewCreate.review_text review);
     Review.rating := ReviewCreate.rating review |}.

(** [for key, value in book.dict().items(): setattr(db_book, key, value)]:
    the five keys of [BookCreate] are assigned, [id] is not among them. *)
Definition setattrs (db_book : Book.t) (book : BookCreate.t) : Book.t :=
  {| Book.id := Book.id db_book;
     Book.title := BookCreate.title book;
     Book.author := BookCreate.author book;
     Book.genre := BookCreate.genre book;
     Book.year_published := BookCreate.year_published book;
     Book.summary := BookCreate.summary book |}.

(** ** The data store *)

Record Store : Type := mkStore
  { books : list Book.t;          (* rows of 'books', in the order a scan lists them *)
    reviews : list Review.t;      (* rows of 'reviews', in the order a scan lists them *)
    books_id_seq : Z;             (* next value of the books.id sequence *)
    reviews_id_seq : Z }.

Definition empty_store : Store :=
  {| books := []; reviews := []; books_id_seq := 1; reviews_id_seq := 1 |}.

(** SQL equality on a nullable integer column: NULL never matches. *)
Definition col_eqb (c : option Z) (v : Z) : bool :=
  match c with
  | Some n => n =? v
  | None => false
  end.

Definition book_exists (n : Z) (st : Store) : bool :=
  existsb (fun b => col_eqb (Book.id b) n) (books st).

Definition review_exists (n : Z) (st : Store) : bool :=
  existsb (fun r => col_eqb (Review.id r) n) (reviews st).

Definition rating_check (r : Review.t) : bool :=
  (1 <=? Review.rating r) && (Review.rating r <=? 5).

(** What the driver and the server accept as the parameters of a row. *)
Definition book_params_ok (b : Book.t) : bool :=
  opt_int32 (Book.year_published b) &&
  negb (has_nul (Book.title b)) && negb (has_nul (Book.author b)) &&
  negb (opt_has_nul (Book.genre b)) && negb (opt_has_nul (Book.summary b)).

Definition review_params_ok (r : Review.t) : bool :=
  int32 (Review.book_id r) && int32 (Review.user_id r) && int32 (Review.rating r) &&
  negb (opt_has_nul (Review.review_text r)).

(** A statement leaves a result and the store as it then is.  When a
    transaction is rolled back the tables return to what they were; the
    sequences keep what was drawn from them. *)
Definition rollback (before now : Store) : Store :=
  {| books := books before; reviews := reviews before;
     books_id_seq := books_id_seq now; reviews_id_seq := reviews_id_seq now |}.

(** INSERT INTO books ... RETURNING id.  Parameters are checked before the
    statement runs; the key is then drawn from the sequence, which stops at
    the largest int4. *)
Definition insert_book (b : Book.t) (st : Store) : (Exception + Book.t) * Store :=
  if negb (book_params_ok b) then (inl DBAPIError, st)
  else
    let n := books_id_seq st in
    if INT32_MAX <? n then (inl DBAPIError, st)
    else
      let drawn := {| books := books st; reviews := reviews st;
                      books_id_seq := n + 1; reviews_id_seq := reviews_id_seq st |} in
      if book_exists n st then (inl IntegrityError, drawn)
      else
        let row := {| Book.id := Some n; Book.title := Book.title b;
                      Book.author := Book.author b; Book.genre := Book.genre b;
                      Book.year_published := Book.year_published b;
                      Book.summary := Book.summary b |} in
        (inr row, {| books := books st ++ [row]; reviews := reviews st;
                     books_id_seq := n + 1; reviews_id_seq := reviews_id_seq st |}).

(** INSERT INTO reviews ... RETURNING id: after the parameters and the key,
    the primary key, the CHECK on rating and the FOREIGN KEY on book_id. *)
Definition insert_review (r : Review.t) (st : Store) : (Exception + Review.t) * Store :=
  if negb (review_params_ok r) then (inl DBAPIError, st)
  else
    let n := reviews_id_seq st in
    if INT32_MAX <? n then (inl DBAPIError, st)
    else
      let drawn := {| books := books st; reviews := reviews st;
                      books_id_seq := books_id_seq st; reviews_id_seq := n + 1 |} in
      if review_exists n st then (inl IntegrityError, drawn)
      else if negb (rating_check r) then (inl IntegrityError, drawn)
      else if negb (book_exists (Review.book_id r) st) then (inl IntegrityError, drawn)
      else
        let row := {| Review.id := Some n; Review.book_id := Review.book_id r;
                      Review.user_id := Review.user_id r;
                      Review.review_text := Review.review_text r;
                      Review.rating := Review.rating r |} in
        (inr row, {| books := books st; reviews := reviews st ++ [row];
                     books_id_seq := books_id_seq st; reviews_id_seq := n + 1 |}).

(** The columns of a loaded book whose value the handler changed; only those
    are sent in the UPDATE. *)
Definition title_changed (loaded b : Book.t) : bool :=
  negb (String.eqb (Book.title loaded) (Book.title b)).
Definition author_changed (loaded b : Book.t) : bool :=
  negb (String.eqb (Book.author loaded) (Book.author b)).
Definition genre_changed (loaded b : Book.t) : bool :=
  negb (opt_string_eqb (Book.genre loaded) (Book.genre b)).
Definition year_published_changed (loaded b : Book.t) : bool :=
  negb (opt_Z_eqb (Book.year_published loaded) (Book.year_published b)).
Definition summary_changed (loaded b : Book.t) : bool :=
  negb (opt_string_eqb (Book.summary loaded) (Book.summary b)).

Definition changed (loaded b : Book.t) : bool :=
  title_changed loaded b || author_changed loaded b || genre_changed loaded b ||
  year_published_changed loaded b || summary_changed loaded b.

Definition update_params_ok (loaded b : Book.t) : bool :=
  negb (title_changed loaded b && has_nul (Book.title b)) &&
  negb (author_changed loaded b && has_nul (Book.author b)) &&
  negb (genre_changed loaded b && opt_has_nul (Book.genre b)) &&
  negb (year_published_changed loaded b && negb (opt_int32 (Book.year_published b))) &&
  negb (summary_changed loaded b && opt_has_nul (Book.summary b)).

(** UPDATE books SET ... WHERE id = n.  With no column changed no statement
    is sent.  Otherwise the row is written anew: the old version goes and the
    new one is what a scan then lists last. *)
Definition update_book_row (loaded b : Book.t) (st : Store) : (Exception + unit) * Store :=
  if negb (changed loaded b) then (inr tt, st)
  else if negb (update_params_ok loaded b) then (inl DBAPIError, st)
  else
    match Book.id b with
    | Some n =>
        if book_exists n st then
          (inr tt,
           {| books := filter (fun x => negb (col_eqb (Book.id x) n)) (books st) ++ [b];
              reviews := reviews st;
              books_id_seq := books_id_seq st; reviews_id_seq := reviews_id_seq st |})
        else (inl InvalidRequestError, st)
    | None => (inl InvalidRequestError, st)
    end.

(** DELETE FROM books WHERE id = n, with the cascade to the reviews of n. *)
Definition delete_book_row (b : Book.t) (st : Store) : Store :=
  match Book.id b with
  | Some n =>
      {| books := filter (fun x => negb (col_eqb (Book.id x) n)) (books st);
         reviews := filter (fun r => negb (Review.book_id r =? n)) (reviews st);
         books_id_seq := books_id_seq st; reviews_id_seq := reviews_id_seq st |}
  | None => st
  end.

(** ** Queries *)

(** [column == value], the value travelling as an int4 parameter. *)
Inductive criterion (row : Type) : Type :=
| Equals (column : row -> option Z) (value : Z).
Arguments Equals {row}.

Definition holds {row} (c : criterion row) (x : row) : bool :=
  match c with
  | Equals column value => col_eqb (column x) value
  end.

Definition parameter {row} (c : criterion row) : Z :=
  match c with
  | Equals _ value => value
  end.

Record Select (row : Type) : Type := mkSelect
  { whereclause : list (criterion row);
    offset_clause : option Z;
    limit_clause : option Z }.
Arguments mkSelect {row}.
Arguments whereclause {row}.
Arguments offset_clause {row}.
Arguments limit_clause {row}.

Definition select (row : Type) : Select row := mkSelect [] None None.

Definition where_ {row} (q : Select row) (c : criterion row) : Select row :=
  mkSelect (whereclause q ++ [c]) (offset_clause q) (limit_clause q).

Definition offset_ {row} (q : Select row) (n : Z) : Select row :=
  mkSelect (whereclause q) (Some n) (limit_clause q).

Definition limit_ {row} (q : Select row) (n : Z) : Select row :=
  mkSelect (whereclause q) (offset_clause q) (Some n).

(** The store refuses a negative OFFSET or LIMIT; rows come in table order,
    no ORDER BY is ever requested. *)
Definition apply_offset {row} (o : option Z) (rows : list row) : Exception + list row :=
  match o with
  | None => inr rows
  | Some n => if n <? 0 then inl DBAPIError else inr (skipn (Z.to_nat n) rows)
  end.

Definition apply_limit {row} (l : option Z) (rows : list row) : Exception + list row :=
  match l with
  | None => inr rows
  | Some n => if n <? 0 then inl DBAPIError else inr (firstn (Z.to_nat n) rows)
  end.

(** The parameters of a query, all sent as int4. *)
Definition parameters {row} (q : Select row) : list Z :=
  map parameter (whereclause q) ++
  match limit_clause q with Some n => [n] | None => [] end ++
  match offset_clause q with Some n => [n] | None => [] end.

Definition fetch {row} (q : Select row) (table : list row) : Exception + list row :=
  if negb (forallb int32 (parameters q)) then inl DBAPIError
  else
    match apply_offset (offset_clause q)
            (filter (fun x => forallb (fun c => holds c x) (whereclause q)) table) with
    | inl e => inl e
    | inr rows => apply_limit (limit_clause q) rows
    end.

(** ** Sessions *)

Inductive instance : Type :=
| IBook (b : Book.t)
| IReview (r : Review.t).

(** What the session knows about an object it tracks; a dirty object comes
    with the attributes it was loaded with. *)
Inductive status : Type :=
| Transient | Pending | Persistent | Dirty (loaded : Book.t) | Deleted | Detached.

Inductive db_call : Type := Execute | Commit | Refresh | Delete.

Record Session : Type := mkSession
  { db : Store;                           (* the committed store *)
    identity : list (status * instance);  (* objects, addressed by position *)
    calls : list db_call }.               (* awaited calls on the session, oldest first *)

(** [SessionLocal()]: a new session per request, tracking nothing. *)
Definition SessionLocal (st : Store) : Session :=
  {| db := st; identity := []; calls := [] |}.

Definition M (A : Type) : Type := Session -> (Exception + A) * Session.

Definition ret {A} (a : A) : M A := fun s => (inr a, s).

Definition raise {A} (e : Exception) : M A := fun s => (inl e, s).

Definition bind {A B} (m : M A) (f : A -> M B) : M B :=
  fun s => match m s with
           | (inl e, s') => (inl e, s')
           | (inr a, s') => f a s'
           end.

Notation "x <- m ;; k" := (bind m (fun x => k))
  (at level 61, m at next level, right associativity).
Notation "m ;;; k" := (bind m (fun _ => k))
  (at level 61, right associativity).

Definition lift {A} (r : Exception + A) : M A :=
  fun s => (r, s).

Definition ref : Type := nat.

Fixpoint set_nth {A} (n : nat) (a : A) (l : list A) : list A :=
  match l, n with
  | [], _ => []
  | _ :: t, O => a :: t
  | x :: t, S k => x :: set_nth k a t
  end.

Definition track (c : status * instance) : M ref :=
  fun s => (inr (List.length (identity s)),
            {| db := db s; identity := identity s ++ [c]; calls := calls s |}).

Definition lookup (o : ref) : M (status * instance) :=
  fun s => match nth_error (identity s) o with
           | Some c => (inr c, s)
           | None => (inl InvalidRequestError, s)
           end.

Definition store_obj (o : ref) (c : status * instance) : M unit :=
  fun s => (inr tt, {| db := db s; identity := set_nth o c (identity s); calls := calls s |}).

Definition await (c : db_call) : M unit :=
  fun s => (inr tt, {| db := db s; identity := identity s; calls := calls s ++ [c] |}).

(** A freshly constructed model object, not yet known to the database. *)
Definition new (i : instance) : M ref := track (Transient, i).

(** [db.add(obj)] *)
Definition db_add (o : ref) : M unit :=
  c <- lookup o ;;
  match c with
  | (Transient, i) => store_obj o (Pending, i)
  | _ => ret tt
  end.

(** [setattr] of the payload's keys on a loaded book; the session remembers
    what was loaded. *)
Definition db_setattrs (o : ref) (book : BookCreate.t) : M unit :=
  c <- lookup o ;;
  match c with
  | (Persistent, IBook b) => store_obj o (Dirty b, IBook (setattrs b book))
  | (st, IBook b) => store_obj o (st, IBook (setattrs b book))
  | (_, IReview _) => raise InvalidRequestError
  end.

(** [await db.delete(obj)] *)
Definition db_delete (o : ref) : M unit :=
  await Delete ;;;
  c <- lookup o ;;
  match c with
  | (Persistent, i) | (Dirty _, i) => store_obj o (Deleted, i)
  | _ => raise InvalidRequestError
  end.

(** The unit of work for one object at flush time.  The handlers insert books
    and reviews, update books and delete books; nothing else reaches a flush. *)
Definition flush_one (c : status * instance) (st : Store)
  : (Exception + (status * instance)) * Store :=
  match c with
  | (Pending, IBook b) =>
      match insert_book b st with
      | (inl e, st') => (inl e, st')
      | (inr row, st') => (inr (Persistent, IBook row), st')
      end
  | (Pending, IReview r) =>
      match insert_review r st with
      | (inl e, st') => (inl e, st')
      | (inr row, st') => (inr (Persistent, IReview row), st')
      end
  | (Dirty loaded, IBook b) =>
      match update_book_row loaded b st with
      | (inl e, st') => (inl e, st')
      | (inr _, st') => (inr (Persistent, IBook b), st')
      end
  | (Deleted, IBook b) => (inr (Detached, IBook b), delete_book_row b st)
  | _ => (inr c, st)
  end.

Fixpoint flush (cs : list (status * instance)) (st : Store)
  : (Exception + list (status * instance)) * Store :=
  match cs with
  | [] => (inr [], st)
  | c :: rest =>
      match flush_one c st with
      | (inl e, st') => (inl e, st')
      | (inr c', st') =>
          match flush rest st' with
          | (inl e, st'') => (inl e, st'')
          | (inr rest', st'') => (inr (c' :: rest'), st'')
          end
      end
  end.

(** [await db.commit()]: everything pending is written in one transaction; a
    refused statement raises and the transaction is rolled back. *)
Definition db_commit : M unit :=
  await Commit ;;;
  fun s => match flush (identity s) (db s) with
           | (inl e, st') =>
               (inl e, {| db := rollback (db s) st'; identity := identity s;
                          calls := calls s |})
           | (inr cs, st') => (inr tt, {| db := st'; identity := cs; calls := calls s |})
           end.

(** [await db.execute(query)] on either table. *)
Definition db_execute_books (q : Select Book.t) : M (list Book.t) :=
  await Execute ;;;
  fun s => (fetch q (books (db s)), s).

Definition db_execute_reviews (q : Select Review.t) : M (list Review.t) :=
  await Execute ;;;
  fun s => (fetch q (reviews (db s)), s).

(** [result.scalar_one_or_none()]: the row found becomes a tracked object. *)
Definition scalar_one_or_none (result : list Book.t) : M (option ref) :=
  match result with
  | [] => ret None
  | [b] => o <- track (Persistent, IBook b) ;; ret (Some o)
  | _ :: _ :: _ => raise MultipleResultsFound
  end.

(** [result.scalars().all()] *)
Definition scalars_all {row} (result : list row) : M (list row) := ret result.

(** [await db.refresh(obj)]: the object's attributes are read back by key. *)
Definition db_refresh (o : ref) : M unit :=
  await Refresh ;;;
  c <- lookup o ;;
  match c with
  | (Persistent, IBook b) =>
      match Book.id b with
      | Some n =>
          fun s => match fetch (where_ (select Book.t) (Equals Book.id n)) (books (db s)) with
                   | inl e => (inl e, s)
                   | inr (row :: _) => store_obj o (Persistent, IBook row) s
                   | inr [] => (inl InvalidRequestError, s)
                   end
      | None => raise InvalidRequestError
      end
  | (Persistent, IReview r) =>
      match Review.id r with
      | Some n =>
          fun s => match fetch (where_ (select Review.t) (Equals Review.id n))
                               (reviews (db s)) with
                   | inl e => (inl e, s)
                   | inr (row :: _) => store_obj o (Persistent, IReview row) s
                   | inr [] => (inl InvalidRequestError, s)
                   end
      | None => raise InvalidRequestError
      end
  | _ => raise InvalidRequestError
  end.

(** Returning a tracked object hands its attributes to the response. *)
Definition return_book (o : ref) : M Book.t :=
  c <- lookup o ;;
  match c with
  | (_, IBook b) => ret b
  | _ => raise InvalidRequestError
  end.

Definition return_review (o : ref) : M Review.t :=
  c <- lookup o ;;
  match c with
  | (_, IReview r) => ret r
  | _ => raise InvalidRequestError
  end.

(** ** Basic authentication *)

Record HTTPBasicCredentials : Type := mkCredentials
  { username : string;
    password : string }.

(** The bcrypt context.  passlib refuses a secret that is longer than 4096
    characters or holds a NUL; bcrypt reads the first 72 bytes of the rest.
    The salted hash itself is kept abstract: it remembers the key it was made
    from, and verification succeeds on that key only. *)
Definition MAX_PASSWORD_SIZE : Z := 4096.

Inductive hashed : Type := Hash (key : string).

Definition bcrypt_key (secret : string) : string := substring 0 72 (utf8 secret).

Definition validate_secret (secret : string) : Exception + unit :=
  if MAX_PASSWORD_SIZE <? Z.of_nat (String.length secret) then inl PasswordValueError
  else if has_nul secret then inl PasswordValueError
  else inr tt.

Definition get_password_hash (password : string) : Exception + hashed :=
  match validate_secret password with
  | inl e => inl e
  | inr _ => inr (Hash (bcrypt_key password))
  end.

Definition verify_password (plain_password : string) (hashed_password : hashed)
  : Exception + bool :=
  match validate_secret plain_password with
  | inl e => inl e
  | inr _ =>
      match hashed_password with
      | Hash key => inr (String.eqb (bcrypt_key plain_password) key)
      end
  end.

(** [secrets.compare_digest] on two [str]: both must be ASCII. *)
Definition compare_digest (a b : string) : Exception + bool :=
  if all_ascii a && all_ascii b then inr (String.eqb a b) else inl TypeError.

Definition authenticate_user (credentials : HTTPBasicCredentials) : M bool :=
  correct_username <- lift (compare_digest (username credentials) "admin") ;;
  hashed_password <- lift (get_password_hash "password") ;;
  correct_password <- lift (verify_password (password credentials) hashed_password) ;;
  if negb (correct_username && correct_password)
  then raise Unauthorized
  else ret true.

(** ** Python built-ins used by the handlers *)

Definition default {A} (d : A) (o : option A) : A :=
  match o with
  | Some a => a
  | None => d
  end.

Definition sum (l : list Z) : Z := fold_left Z.add l 0.

Definition len {A} (l : list A) : Z := Z.of_nat (List.length l).

(** [b * 2 ^ d <= a], for any sign of [d]. *)
Definition scaled_leb (b d a : Z) : bool :=
  if 0 <=? d then b * 2 ^ d <=? a else b <=? a * 2 ^ (- d).

(** The binary order of magnitude of [a / b] for positive [a] and [b]: the
    [k] with [2 ^ k <= a / b < 2 ^ (k + 1)]. *)
Definition binade (a b : Z) : Z :=
  let d := Z.log2 a - Z.log2 b in
  if scaled_leb b d a then d else d - 1.

(** [n / d] rounded to the nearest integer, ties to even, for positive [d]. *)
Definition round_half_even (n d : Z) : Z :=
  let q := n / d in
  let r := n mod d in
  if 2 * r <? d then q
  else if d <? 2 * r then q + 1
  else if Z.even q then q else q + 1.

(** The double nearest to [a / b] for positive [a] and [b], as the rational
    it stands for: 53 significant bits, the exponent of the last bit not
    below -1074; None when the result is beyond the largest double. *)
Definition nearest_double (a b : Z) : option Q :=
  let e := Z.max (binade a b - 52) (-1074) in
  let m := if 0 <=? e then round_half_even a (b * 2 ^ e)
           else round_half_even (a * 2 ^ (- e)) b in
  if (971 <? e) || ((e =? 971) && (m =? 2 ^ 53)) then None
  else Some (Qred (if 0 <=? e then inject_Z (m * 2 ^ e)
                   else Qmake m (Z.to_pos (2 ^ (- e))))).

(** [a / b] on integers: a float, the double nearest to the quotient. *)
Definition truediv (a b : Z) : Exception + Q :=
  if b =? 0 then inl ZeroDivisionError
  else if a =? 0 then inr 0%Q
  else
    match nearest_double (Z.abs a) (Z.abs b) with
    | None => inl OverflowError
    | Some q => inr (if Z.sgn a * Z.sgn b <? 0 then Qopp q else q)
    end.

(** [sep.join(items)]: an item that is None is a TypeError. *)
Fixpoint join (sep : string) (items : list (option string)) : Exception + string :=
  match items with
  | [] => inr ""
  | None :: _ => inl TypeError
  | Some x :: rest =>
      match rest with
      | [] => inr x
      | _ :: _ =>
          match join sep rest with
          | inl e => inl e
          | inr s => inr (x ++ sep ++ s)
          end
      end
  end.

(** [not reviews] *)
Definition is_empty {A} (l : list A) : bool :=
  match l with
  | [] => true
  | _ :: _ => false
  end.

(** ** Request handlers *)

(** The column [Review.book_id], which is never NULL. *)
Definition Review_book_id (r : Review.t) : option Z := Some (Review.book_id r).

Definition create_book (book : BookCreate.t) (credentials : HTTPBasicCredentials)
  : M Book.t :=
  authenticate_user credentials ;;;
  db_book <- new (IBook (Book_init book)) ;;
  db_add db_book ;;;
  db_commit ;;;
  db_refresh db_book ;;;
  return_book db_book.

Definition read_books (skip limit : option Z) (credentials : HTTPBasicCredentials)
  : M (list Book.t) :=
  let skip := default 0 skip in
  let limit := default 10 limit in
  authenticate_user credentials ;;;
  result <- db_execute_books (limit_ (offset_ (select Book.t) skip) limit) ;;
  books <- scalars_all result ;;
  ret books.

Definition read_book (id : Z) (credentials : HTTPBasicCredentials) : M Book.t :=
  authenticate_user credentials ;;;
  result <- db_execute_books (where_ (select Book.t) (Equals Book.id id)) ;;
  book <- scalar_one_or_none result ;;
  match book with
  | None => raise (NotFound "Book not found")
  | Some book => return_book book
  end.

Definition update_book (id : Z) (book : BookCreate.t) (credentials : HTTPBasicCredentials)
  : M Book.t :=
  authenticate_user credentials ;;;
  result <- db_execute_books (where_ (select Book.t) (Equals Book.id id)) ;;
  db_book <- scalar_one_or_none result ;;
  match db_book with
  | None => raise (NotFound "Book not found")
  | Some db_book =>
      db_setattrs db_book book ;;;
      db_commit ;;;
      db_refresh db_book ;;;
      return_book db_book
  end.

Definition delete_book (id : Z) (credentials : HTTPBasicCredentials)
  : M (list (string * string)) :=
  authenticate_user credentials ;;;
  result <- db_execute_books (where_ (select Book.t) (Equals Book.id id)) ;;
  db_book <- scalar_one_or_none result ;;
  match db_book with
  | None => raise (NotFound "Book not found")
  | Some db_book =>
      db_delete db_book ;;;
      db_commit ;;;
      ret [("detail", "Book deleted")]
  end.

Definition create_review (id : Z) (review : ReviewCreate.t)
           (credentials : HTTPBasicCredentials) : M Review.t :=
  authenticate_user credentials ;;;
  result <- db_execute_books (where_ (select Book.t) (Equals Book.id id)) ;;
  book <- scalar_one_or_none result ;;
  match book with
  | None => raise (NotFound "Book not found")
  | Some _ =>
      db_review <- new (IReview (Review_init review id)) ;;
      db_add db_review ;;;
      db_commit ;;;
      db_refresh db_review ;;;
      return_review db_review
  end.

Definition read_reviews (id : Z) (credentials : HTTPBasicCredentials)
  : M (list Review.t) :=
  authenticate_user credentials ;;;
  result <- db_execute_reviews (where_ (select Review.t) (Equals Review_book_id id)) ;;
  reviews <- scalars_all result ;;
  ret reviews.

Record Summary : Type := mkSummary
  { average_rating : Q;          (* the value of the float *)
    summary : string }.

Definition book_summary (id : Z) (credentials : HTTPBasicCredentials) : M Summary :=
  authenticate_user credentials ;;;
  result <- db_execute_reviews (where_ (select Review.t) (Equals Review_book_id id)) ;;
  reviews <- scalars_all result ;;
  if is_empty reviews then raise (NotFound "No reviews found for this book")
  else
    average_rating <- lift (truediv (sum (map Review.rating reviews)) (len reviews)) ;;
    summary <- lift (join " " (map Review.review_text reviews)) ;;
    ret {| average_rating := average_rating; summary := summary |}.

(** [get_db]: the handler gets a session of its own; when the request ends the
    session is closed and only what was committed stays in the store. *)
Definition run {A} (handler : M A) (st : Store) : (Exception + A) * Store :=
  let (r, s) := handler (SessionLocal st) in (r, db s).

(** The awaited database calls of a request, for handlers that must not
    reach the store. *)
Definition trace {A} (handler : M A) (st : Store) : list db_call :=
  calls (snd (handler (SessionLocal st))).

(** ** Requests and reachable stores *)

Inductive request : Type :=
| POST_books (book : BookCreate.t)
| GET_books (skip limit : option Z)
| GET_book (id : Z)
| PUT_book (id : Z) (book : BookCreate.t)
| DELETE_book (id : Z)
| POST_reviews (id : Z) (review : ReviewCreate.t)
| GET_reviews (id : Z)
| GET_summary (id : Z).

Inductive response : Type :=
| BookResponse (b : Book.t)
| BookResponses (l : list Book.t)
| DetailResponse (d : list (string * string))
| ReviewResponse (r : Review.t)
| ReviewResponses (l : list Review.t)
| SummaryResponse (s : Summary).

(** The routing table of [app]. *)
Definition handle (r : request) (credentials : HTTPBasicCredentials) : M response :=
  match r with
  | POST_books book => b <- create_book book credentials ;; ret (BookResponse b)
  | GET_books skip limit => l <- read_books skip limit credentials ;; ret (BookResponses l)
  | GET_book id => b <- read_book id credentials ;; ret (BookResponse b)
  | PUT_book id book => b <- update_book id book credentials ;; ret (BookResponse b)
  | DELETE_book id => d <- delete_book id credentials ;; ret (DetailResponse d)
  | POST_reviews id review =>
      r <- create_review id review credentials ;; ret (ReviewResponse r)
  | GET_reviews id => l <- read_reviews id credentials ;; ret (ReviewResponses l)
  | GET_summary id => s <- book_summary id credentials ;; ret (SummaryResponse s)
  end.

Definition serve (r : request) (credentials : HTTPBasicCredentials) (st : Store) : Store :=
  snd (run (handle r credentials) st).

(** The stores the service can be in: the empty database after [init_db],
    then any sequence of requests. *)
Inductive reachable : Store -> Prop :=
| reachable_init : reachable empty_store
| reachable_serve r credentials st :
    reachable st -> reachable (serve r credentials st).

(** ** Notions used in the statements *)

Definition authorized (c : HTTPBasicCredentials) : bool :=
  String.eqb (username c) "admin" && String.eqb (password c) "password".

(** What [authenticate_user] raises for a pair it does not accept. *)
Definition refusal (c : HTTPBasicCredentials) : Exception :=
  if negb (all_ascii (username c)) then TypeError
  else if (MAX_PASSWORD_SIZE <? Z.of_nat (String.length (password c)))
          || has_nul (password c) then PasswordValueError
  else Unauthorized.

Definition find_book (id : Z) (st : Store) : list Book.t :=
  filter (fun b => col_eqb (Book.id b) id) (books st).

Definition find_review (id : Z) (st : Store) : list Review.t :=
  filter (fun r => col_eqb (Review.id r) id) (reviews st).

Definition reviews_of (id : Z) (st : Store) : list Review.t :=
  filter (fun r => Review.book_id r =? id) (reviews st).

(** A payload the store can hold: integers within int4, no NUL in a text. *)
Definition storable_book (book : BookCreate.t) : bool :=
  book_params_ok (Book_init book).

Definition storable_review (review : ReviewCreate.t) : bool :=
  int32 (ReviewCreate.user_id review) && int32 (ReviewCreate.rating review) &&
  negb (has_nul (ReviewCreate.review_text review)).

(** Keys are handed out by a sequence that starts at 1: along a table they
    are set and below the sequence's next value; where no row is ever
    rewritten they are strictly ascending. *)
Definition key_lt (a b : option Z) : Prop :=
  match a, b with
  | Some x, Some y => x < y
  | _, _ => False
  end.

Definition key_below (bound : Z) (a : option Z) : Prop :=
  match a with
  | Some x => 1 <= x < bound
  | None => False
  end.

Definition ascending (keys : list (option Z)) : Prop := StronglySorted key_lt keys.

Record wf (st : Store) : Prop := mk_wf
  { wf_books_nodup : NoDup (map Book.id (books st));
    wf_books_below : Forall (key_below (books_id_seq st)) (map Book.id (books st));
    wf_books_seq : 1 <= books_id_seq st <= INT32_MAX + 1;
    wf_reviews_ascending : ascending (map Review.id (reviews st));
    wf_reviews_below : Forall (key_below (reviews_id_seq st)) (map Review.id (reviews st));
    wf_reviews_seq : 1 <= reviews_id_seq st <= INT32_MAX + 1;
    wf_no_orphan : Forall (fun r => book_exists (Review.book_id r) st = true) (reviews st);
    wf_rating : Forall (fun r => rating_check r = true) (reviews st);
    wf_text : Forall (fun r => Review.review_text r <> None) (reviews st) }.

Definition validation_or_constraint (e : Exception) : bool :=
  match e with
  | RequestValidationError | IntegrityError => true
  | _ => false
  end.

(** The arithmetic mean, as the specification words it: the total of the
    values over their number. *)
Definition mean (values : list Z) : Q :=
  Qdiv (inject_Z (fold_right Z.add 0 values)) (inject_Z (Z.of_nat (List.length values))).

(** The rationals with denominator [2 ^ n]. *)
Definition dyadic (n : Z) (q : Q) : Prop :=
  exists m : Z, Qeq q (Qmake m (Z.to_pos (2 ^ n))).

Definition text_of (r : Review.t) : string := default "" (Review.review_text r).

(** The four GET routes. *)
Definition is_read (r : request) : bool :=
  match r with
  | GET_books _ _ | GET_book _ | GET_reviews _ | GET_summary _ => true
  | _ => false
  end.

(** The book a request is addressed to, when its path names one. *)
Definition addressed (r : request) : option Z :=
  match r with
  | PUT_book id _ | DELETE_book id | POST_reviews id _ => Some id
  | _ => None
  end.

(** How often a request awaited [db.commit()]. *)
Definition commits (t : list db_call) : nat :=
  List.length (filter (fun call => match call with Commit => true | _ => false end) t).

Definition is_update (r : request) : bool :=
  match r with
  | PUT_book _ _ => true
  | _ => false
  end.

(** The stores reached without any PUT request. *)
Inductive never_updated : Store -> Prop :=
| never_updated_init : never_updated empty_store
| never_updated_serve r credentials st :
    never_updated st -> is_update r = false -> never_updated (serve r credentials st).

(** ** Sample data *)

Definition admin : HTTPBasicCredentials := mkCredentials "admin" "password".

Definition intruder : HTTPBasicCredentials := mkCredentials "admin" "letmein".

(** The right password followed by a NUL. *)
Definition nul_padded : HTTPBasicCredentials :=
  mkCredentials "admin" ("password" ++ String zero "").

Definition dune : BookCreate.t :=
  BookCreate.mk "Dune" "Herbert" (Some "SF") (Some 1965) None.

Definition emma : BookCreate.t :=
  BookCreate.mk "Emma" "Austen" None (Some 1815) None.

Definition ulysses : BookCreate.t :=
  BookCreate.mk "Ulysses" "Joyce" None (Some 1922) None.

Definition great : ReviewCreate.t := ReviewCreate.mk 7 "Great" 5.

Definition fair : ReviewCreate.t := ReviewCreate.mk 8 "Fair" 3.

Definition dull : ReviewCreate.t := ReviewCreate.mk 9 "Dull" 3.

(** One book with two reviews. *)
Definition library : Store :=
  serve (POST_reviews 1 fair) admin
    (serve (POST_reviews 1 great) admin
       (serve (POST_books dune) admin empty_store)).

(** The same with a third review: ratings 5, 3, 3. *)
Definition library3 : Store := serve (POST_reviews 1 dull) admin library.

(** Three books, the first of them retitled afterwards. *)
Definition shelf : Store :=
  serve (POST_books ulysses) admin
    (serve (POST_books emma) admin
       (serve (POST_books dune) admin empty_store)).

Definition shelf_retitled : Store :=
  serve (PUT_book 1 (BookCreate.mk "Dune Messiah" "Herbert" (Some "SF") (Some 1969) None))
        admin shelf.

(** Values taken as they are, with no conversion between types. *)
Definition strict : Coercion :=
  {| as_int := fun v => match v with JInt z => Some z | _ => None end;
     as_str := fun v => match v with JStr s => Some s | _ => None end |}.

(** The body of [dune]'s sequel, sent without its optional fields. *)
Definition dune_bare : list (string * json) :=
  [("title", JStr "Dune Messiah"); ("author", JStr "Herbert")].

(** A book dated beyond the largest int4, and its body. *)
Definition far_future : BookCreate.t :=
  BookCreate.mk "Dune" "Herbert" None (Some 2147483648) None.

Definition far_future_body : list (string * json) :=
  [("title", JStr "Dune"); ("author", JStr "Herbert"); ("year_published", JInt 2147483648)].

(** A review body without its text. *)
Definition textless : list (string * json) :=
  [("user_id", JInt 7); ("rating", JInt 5)].

(** * Proofs *)

(** ** Authentication *)

Lemma authorized_iff c :
  authorized c = true <-> c = mkCredentials "admin" "password".
Proof.
  unfold authorized. destruct c as [u p]; cbn [username password].
  rewrite andb_true_iff, !String.eqb_eq. split.
  - intros [-> ->]. reflexivity.
  - intros E. inversion E. auto.
Qed.

Lemma utf8_lead_not_ascii c :
  is_ascii c = false -> is_ascii (ascii_of_N (192 + N_of_ascii c / 64)) = false.
Proof.
  destruct c as [[] [] [] [] [] [] [] []]; cbn; intros H;
    try discriminate H; reflexivity.
Qed.

(** A short ASCII key is the key of one secret only. *)
Lemma bcrypt_prefix_injective t : forall p n,
  all_ascii t = true -> (String.length t < n)%nat ->
  substring 0 n (utf8 p) = t -> p = t.
Proof.
  induction t as [|a t IH]; intros p n Ha Hn E.
  - destruct p as [|c p]; [reflexivity|]. exfalso.
    destruct n as [|n]; [cbn in Hn; lia|].
    cbn [utf8] in E. destruct (is_ascii c); cbn [substring] in E; discriminate.
  - destruct n as [|n]; [cbn in Hn; lia|].
    cbn [all_ascii] in Ha. apply andb_true_iff in Ha. destruct Ha as [Ha Ht].
    destruct p as [|c p]; [cbn in E; discriminate|].
    cbn [utf8] in E. destruct (is_ascii c) eqn:Hc.
    + cbn [substring] in E. inversion E; subst. f_equal.
      apply (IH p n); [exact Ht | cbn in Hn; lia | reflexivity].
    + pose proof (utf8_lead_not_ascii c Hc) as Hlead.
      remember (ascii_of_N (192 + N_of_ascii c / 64)) as lead.
      cbn [substring] in E. injection E as Hl _. subst a. congruence.
Qed.

Lemma authenticate_user_ok c s :
  authorized c = true -> authenticate_user c s = (inr true, s).
Proof. intros H. apply authorized_iff in H. subst c. reflexivity. Qed.

(** Any other pair is refused, and the session is not touched. *)
Lemma authenticate_user_no c s :
  authorized c = false -> authenticate_user c s = (inl (refusal c), s).
Proof.
  intros H. unfold authenticate_user, bind, lift, raise, ret, refusal.
  unfold compare_digest. rewrite andb_true_r.
  destruct (all_ascii (username c)); cbn [negb]; [|reflexivity].
  change (get_password_hash "password") with (@inr Exception _ (Hash "password")).
  cbv iota beta. unfold verify_password, validate_secret.
  destruct (MAX_PASSWORD_SIZE <? _); [reflexivity|].
  destruct (has_nul (password c)); [reflexivity|]. cbn [orb].
  destruct (String.eqb (username c) "admin") eqn:Eu; [|reflexivity].
  destruct (String.eqb (bcrypt_key (password c)) "password") eqn:Ep; [|reflexivity].
  exfalso. apply String.eqb_eq in Ep.
  apply (bcrypt_prefix_injective "password" (password c) 72) in Ep;
    [|reflexivity | cbn; lia].
  unfold authorized in H. rewrite Eu, Ep in H. discriminate H.
Qed.

Lemma refusal_cases c :
  refusal c = Unauthorized \/ refusal c = TypeError \/ refusal c = PasswordValueError.
Proof.
  unfold refusal. destruct (negb _); [auto|]. destruct (_ || _); auto.
Qed.

(** ** Lists and keys *)

Lemma col_eqb_true c v : col_eqb c v = true <-> c = Some v.
Proof.
  destruct c as [n|]; cbn.
  - rewrite Z.eqb_eq. split; congruence.
  - split; discriminate.
Qed.

Lemma filter_head_true {A} (p : A -> bool) (l : list A) (x : A) (t : list A) :
  filter p l = x :: t -> p x = true.
Proof.
  intros E. assert (H : In x (filter p l)) by (rewrite E; left; reflexivity).
  apply filter_In in H. tauto.
Qed.

Lemma filter_all {A} (l : list A) : filter (fun _ => true) l = l.
Proof. induction l as [|x t IH]; cbn; [reflexivity | rewrite IH; reflexivity]. Qed.

Lemma filter_negb_filter {A} (p : A -> bool) (l : list A) :
  filter p (filter (fun x => negb (p x)) l) = [].
Proof.
  induction l as [|x t IH]; cbn; [reflexivity|].
  destruct (p x) eqn:E; cbn; [exact IH | rewrite E; exact IH].
Qed.

Lemma filter_split_length {A} (p : A -> bool) (l : list A) :
  len (filter (fun x => negb (p x)) l) = len l - len (filter p l).
Proof.
  unfold len. induction l as [|x t IH]; cbn [filter]; [reflexivity|].
  destruct (p x); cbn [negb List.length]; lia.
Qed.

Lemma filter_filter_implied {A} (p q : A -> bool) (l : list A) :
  (forall x, p x = true -> q x = true) ->
  filter p (filter q l) = filter p l.
Proof.
  intros H. induction l as [|x t IH]; cbn; [reflexivity|].
  destruct (q x) eqn:Q; cbn; rewrite IH; [reflexivity|].
  destruct (p x) eqn:P; [|reflexivity].
  rewrite (H x P) in Q. discriminate.
Qed.

Lemma existsb_on_map {A B} (p : B -> bool) (f : A -> B) (l : list A) :
  existsb p (map f l) = existsb (fun x => p (f x)) l.
Proof. induction l as [|x t IH]; cbn; [reflexivity | rewrite IH; reflexivity]. Qed.

Lemma ascending_NoDup keys : ascending keys -> NoDup keys.
Proof.
  unfold ascending. induction 1 as [|k t _ IH Hk]; constructor; [|exact IH].
  intros Hin. rewrite Forall_forall in Hk. specialize (Hk k Hin).
  destruct k; cbn in Hk; [lia | exact Hk].
Qed.

Section Keys.
Context {A : Type} (key : A -> option Z).

Lemma key_below_mono n m a : key_below n a -> n <= m -> key_below m a.
Proof. destruct a; cbn; [lia | tauto]. Qed.

Lemma below_filter_nil n l :
  Forall (key_below n) (map key l) ->
  filter (fun x => col_eqb (key x) n) l = [].
Proof.
  induction l as [|x t IH]; cbn; [reflexivity|].
  intros H. inversion H as [|? ? Hx Ht]; subst.
  destruct (key x) as [k|]; cbn in *; [|tauto].
  destruct (Z.eqb_spec k n); [lia | auto].
Qed.

Lemma below_not_exists n l :
  Forall (key_below n) (map key l) ->
  existsb (fun x => col_eqb (key x) n) l = false.
Proof.
  induction l as [|x t IH]; cbn; [reflexivity|].
  intros H. inversion H as [|? ? Hx Ht]; subst.
  rewrite (IH Ht), orb_false_r.
  destruct (key x) as [k|]; cbn in *; [|tauto].
  apply Z.eqb_neq. lia.
Qed.

Lemma filter_other_keys n l :
  Forall (key_below n) (map key l) ->
  filter (fun x => negb (col_eqb (key x) n)) l = l.
Proof.
  induction l as [|x t IH]; cbn; [reflexivity|].
  intros H. inversion H as [|? ? Hx Ht]; subst.
  rewrite (IH Ht). destruct (key x) as [k|]; cbn in *; [|tauto].
  destruct (Z.eqb_spec k n); [lia | reflexivity].
Qed.

Lemma absent_filter_nil n l :
  ~ In (Some n) (map key l) -> filter (fun x => col_eqb (key x) n) l = [].
Proof.
  induction l as [|x t IH]; cbn; [reflexivity|].
  intros H. destruct (col_eqb (key x) n) eqn:E.
  - apply col_eqb_true in E. tauto.
  - apply IH. tauto.
Qed.

(** A key selects at most one row. *)
Lemma nodup_filter_unique n l :
  NoDup (map key l) ->
  filter (fun x => col_eqb (key x) n) l = [] \/
  exists x, filter (fun x => col_eqb (key x) n) l = [x].
Proof.
  induction l as [|x t IH]; cbn; [auto|].
  intros H. inversion H as [|? ? Hx Ht]; subst.
  destruct (col_eqb (key x) n) eqn:E.
  - right. exists x. apply col_eqb_true in E. rewrite E in Hx.
    rewrite (absent_filter_nil _ _ Hx). reflexivity.
  - auto.
Qed.

Lemma exists_filter n l :
  existsb (fun x => col_eqb (key x) n) l = true <->
  filter (fun x => col_eqb (key x) n) l <> [].
Proof.
  induction l as [|x t IH]; cbn.
  - split; [discriminate | congruence].
  - destruct (col_eqb (key x) n); cbn; [|exact IH].
    split; [discriminate | reflexivity].
Qed.

Lemma ascending_snoc n l x :
  ascending (map key l) ->
  Forall (key_below n) (map key l) ->
  key x = Some n ->
  ascending (map key (l ++ [x])).
Proof.
  unfold ascending. intros Hs Hb Hx.
  induction l as [|y t IH]; cbn.
  - repeat constructor.
  - cbn in Hs, Hb. inversion Hs as [|? ? Hs' Hy]; subst.
    inversion Hb as [|? ? By Bt]; subst.
    constructor; [auto|].
    rewrite map_app. apply Forall_app. split; [assumption|].
    constructor; [|constructor]. cbn. rewrite Hx.
    destruct (key y); cbn in *; [lia | tauto].
Qed.

Lemma nodup_snoc n l x :
  NoDup (map key l) ->
  ~ In (Some n) (map key l) ->
  key x = Some n ->
  NoDup (map key (l ++ [x])).
Proof.
  intros Hn Hin Hx. rewrite map_app. cbn. rewrite Hx.
  apply NoDup_app; [exact Hn | repeat constructor; intros [] |].
  intros k Hk [<-|[]]. contradiction.
Qed.

Lemma below_not_in n l :
  Forall (key_below n) (map key l) -> ~ In (Some n) (map key l).
Proof.
  intros H Hin. rewrite Forall_forall in H. specialize (H _ Hin). cbn in H. lia.
Qed.

Lemma below_snoc n l x :
  1 <= n ->
  Forall (key_below n) (map key l) ->
  key x = Some n ->
  Forall (key_below (n + 1)) (map key (l ++ [x])).
Proof.
  intros H1 Hb Hx. rewrite map_app. apply Forall_app. split.
  - eapply Forall_impl; [|exact Hb]. intros a Ha.
    apply (key_below_mono n); [assumption | lia].
  - constructor; [|constructor]. rewrite Hx. cbn. lia.
Qed.

Lemma ascending_filter (p : A -> bool) l :
  ascending (map key l) -> ascending (map key (filter p l)).
Proof.
  unfold ascending.
  induction l as [|x t IH]; cbn; [auto|].
  intros H. inversion H as [|? ? Hs Hx]; subst.
  destruct (p x); cbn; [|auto].
  constructor; [auto|].
  rewrite Forall_forall in *. intros k Hk. apply Hx.
  rewrite in_map_iff in *. destruct Hk as [y [<- Hy]].
  exists y. apply filter_In in Hy. tauto.
Qed.

Lemma nodup_filter (p : A -> bool) l :
  NoDup (map key l) -> NoDup (map key (filter p l)).
Proof.
  induction l as [|x t IH]; cbn; [auto|].
  intros H. inversion H as [|? ? Hx Ht]; subst.
  destruct (p x); cbn; [|auto].
  constructor; [|auto].
  intros Hin. apply Hx. rewrite in_map_iff in *.
  destruct Hin as [y [E Hy]]. exists y. apply filter_In in Hy. tauto.
Qed.

Lemma below_filter (p : A -> bool) n l :
  Forall (key_below n) (map key l) -> Forall (key_below n) (map key (filter p l)).
Proof.
  rewrite !Forall_forall. intros H k Hk. apply H.
  rewrite in_map_iff in *. destruct Hk as [y [<- Hy]].
  exists y. apply filter_In in Hy. tauto.
Qed.

Lemma filter_snoc_fresh n l x :
  Forall (key_below n) (map key l) ->
  key x = Some n ->
  filter (fun y => col_eqb (key y) n) (l ++ [x]) = [x].
Proof.
  intros Hb Hx. rewrite filter_app, (below_filter_nil _ _ Hb). cbn.
  rewrite Hx. cbn. rewrite Z.eqb_refl. reflexivity.
Qed.

Lemma removed_not_in n l :
  ~ In (Some n) (map key (filter (fun x => negb (col_eqb (key x) n)) l)).
Proof.
  intros Hin. apply in_map_iff in Hin. destruct Hin as [x [Hx Hf]].
  apply filter_In in Hf. destruct Hf as [_ Hf].
  apply col_eqb_true in Hx. rewrite Hx in Hf. discriminate.
Qed.
End Keys.

(** ** What a query fetches *)

Lemma fetch_by_key {row} (column : row -> option Z) (v : Z) (table : list row) :
  fetch (where_ (select row) (Equals column v)) table =
  if int32 v then inr (filter (fun x => col_eqb (column x) v) table)
  else inl DBAPIError.
Proof.
  unfold fetch, where_, select, parameters. cbn.
  rewrite andb_true_r. destruct (int32 v); cbn; [|reflexivity].
  f_equal. apply filter_ext. intros x. apply andb_true_r.
Qed.

Lemma fetch_window {row} (o l : Z) (table : list row) :
  fetch (limit_ (offset_ (select row) o) l) table =
  if int32 l && int32 o && (0 <=? o) && (0 <=? l)
  then inr (firstn (Z.to_nat l) (skipn (Z.to_nat o) table))
  else inl DBAPIError.
Proof.
  unfold fetch, limit_, offset_, select, parameters. cbn.
  rewrite andb_true_r, filter_all.
  destruct (int32 l), (int32 o); cbn; try reflexivity.
  destruct (Z.ltb_spec o 0), (Z.leb_spec 0 o); try lia; cbn; [reflexivity|].
  destruct (Z.ltb_spec l 0), (Z.leb_spec 0 l); try lia; reflexivity.
Qed.

Lemma rollback_same st : rollback st st = st.
Proof. destruct st; reflexivity. Qed.

(** ** What each handler computes *)

Ltac session :=
  cbv [bind ret raise lift await track lookup store_obj new db_add db_setattrs db_delete
       db_commit db_execute_books db_execute_reviews scalar_one_or_none scalars_all
       db_refresh return_book return_review SessionLocal
       db identity calls flush flush_one nth_error set_nth List.length app fst snd
       default is_empty].

Ltac enter handler Hc :=
  unfold run, trace, handler; unfold bind at 1; rewrite (authenticate_user_ok _ _ Hc).

Section Refused.
Variable c : HTTPBasicCredentials.
Variable e : Exception.
Variable s : Session.
Hypothesis Hc : authenticate_user c s = (inl e, s).

Ltac refuse handler :=
  unfold handler; unfold bind at 1; rewrite Hc; reflexivity.

Lemma create_book_refuses book : create_book book c s = (inl e, s).
Proof. refuse create_book. Qed.

Lemma read_books_refuses skip limit : read_books skip limit c s = (inl e, s).
Proof. refuse read_books. Qed.

Lemma read_book_refuses id : read_book id c s = (inl e, s).
Proof. refuse read_book. Qed.

Lemma update_book_refuses id book : update_book id book c s = (inl e, s).
Proof. refuse update_book. Qed.

Lemma delete_book_refuses id : delete_book id c s = (inl e, s).
Proof. refuse delete_book. Qed.

Lemma create_review_refuses id review : create_review id review c s = (inl e, s).
Proof. refuse create_review. Qed.

Lemma read_reviews_refuses id : read_reviews id c s = (inl e, s).
Proof. refuse read_reviews. Qed.

Lemma book_summary_refuses id : book_summary id c s = (inl e, s).
Proof. refuse book_summary. Qed.
End Refused.

Section Authorized.
Variable c : HTTPBasicCredentials.
Hypothesis Hc : authorized c = true.
Variable st : Store.

Lemma create_book_run book :
  run (create_book book c) st =
  match insert_book (Book_init book) st with
  | (inl e, st1) => (inl e, rollback st st1)
  | (inr row, st') =>
      match Book.id row with
      | Some n =>
          if int32 n then
            match find_book n st' with
            | row' :: _ => (inr row', st')
            | [] => (inl InvalidRequestError, st')
            end
          else (inl DBAPIError, st')
      | None => (inl InvalidRequestError, st')
      end
  end.
Proof.
  enter create_book Hc. session.
  destruct (insert_book _ _) as [[e|row] st1]; [reflexivity|].
  destruct (Book.id row) as [n|]; [|reflexivity].
  rewrite fetch_by_key. fold (find_book n st1).
  destruct (int32 n); [|reflexivity].
  destruct (find_book n st1); reflexivity.
Qed.

Lemma read_books_run skip limit :
  run (read_books skip limit c) st =
  (fetch (limit_ (offset_ (select Book.t) (default 0 skip)) (default 10 limit)) (books st),
   st).
Proof.
  enter read_books Hc. session.
  destruct (fetch _ _); reflexivity.
Qed.

Lemma read_book_run id :
  run (read_book id c) st =
  if int32 id then
    match find_book id st with
    | [] => (inl (NotFound "Book not found"), st)
    | [b] => (inr b, st)
    | _ :: _ :: _ => (inl MultipleResultsFound, st)
    end
  else (inl DBAPIError, st).
Proof.
  enter read_book Hc. session. rewrite fetch_by_key. fold (find_book id st).
  destruct (int32 id); [|reflexivity].
  destruct (find_book id st) as [|b [|b' l]]; reflexivity.
Qed.

Lemma update_book_run id book :
  run (update_book id book c) st =
  if int32 id then
    match find_book id st with
    | [] => (inl (NotFound "Book not found"), st)
    | [b] =>
        match update_book_row b (setattrs b book) st with
        | (inl e, st1) => (inl e, rollback st st1)
        | (inr _, st') =>
            match find_book id st' with
            | row :: _ => (inr row, st')
            | [] => (inl InvalidRequestError, st')
            end
        end
    | _ :: _ :: _ => (inl MultipleResultsFound, st)
    end
  else (inl DBAPIError, st).
Proof.
  enter update_book Hc. session. rewrite fetch_by_key. fold (find_book id st).
  destruct (int32 id) eqn:Hid; [|reflexivity].
  destruct (find_book id st) as [|b [|b' l]] eqn:E; try reflexivity.
  assert (Hb : Book.id b = Some id)
    by (apply col_eqb_true; exact (filter_head_true _ _ _ _ E)).
  destruct (update_book_row _ _ _) as [[e|u] st1]; [reflexivity|].
  cbn [Book.id setattrs]. rewrite Hb, fetch_by_key, Hid. fold (find_book id st1).
  destruct (find_book id st1); reflexivity.
Qed.

Lemma delete_book_run id :
  run (delete_book id c) st =
  if int32 id then
    match find_book id st with
    | [] => (inl (NotFound "Book not found"), st)
    | [b] => (inr [("detail", "Book deleted")], delete_book_row b st)
    | _ :: _ :: _ => (inl MultipleResultsFound, st)
    end
  else (inl DBAPIError, st).
Proof.
  enter delete_book Hc. session. rewrite fetch_by_key. fold (find_book id st).
  destruct (int32 id); [|reflexivity].
  destruct (find_book id st) as [|b [|b' l]]; reflexivity.
Qed.

Lemma create_review_run id review :
  run (create_review id review c) st =
  if int32 id then
    match find_book id st with
    | [] => (inl (NotFound "Book not found"), st)
    | [_] =>
        match insert_review (Review_init review id) st with
        | (inl e, st1) => (inl e, rollback st st1)
        | (inr row, st') =>
            match Review.id row with
            | Some n =>
                if int32 n then
                  match find_review n st' with
                  | row' :: _ => (inr row', st')
                  | [] => (inl InvalidRequestError, st')
                  end
                else (inl DBAPIError, st')
            | None => (inl InvalidRequestError, st')
            end
        end
    | _ :: _ :: _ => (inl MultipleResultsFound, st)
    end
  else (inl DBAPIError, st).
Proof.
  enter create_review Hc. session. rewrite fetch_by_key. fold (find_book id st).
  destruct (int32 id); [|reflexivity].
  destruct (find_book id st) as [|b [|b' l]]; try reflexivity.
  destruct (insert_review _ _) as [[e|row] st1]; [reflexivity|].
  destruct (Review.id row) as [n|]; [|reflexivity].
  rewrite fetch_by_key. fold (find_review n st1).
  destruct (int32 n); [|reflexivity].
  destruct (find_review n st1); reflexivity.
Qed.

Lemma fetch_reviews_of id :
  fetch (where_ (select Review.t) (Equals Review_book_id id)) (reviews st) =
  if int32 id then inr (reviews_of id st) else inl DBAPIError.
Proof. rewrite fetch_by_key. reflexivity. Qed.

Lemma read_reviews_run id :
  run (read_reviews id c) st =
  if int32 id then (inr (reviews_of id st), st) else (inl DBAPIError, st).
Proof.
  enter read_reviews Hc. session. rewrite fetch_reviews_of.
  destruct (int32 id); reflexivity.
Qed.

Lemma book_summary_run id :
  run (book_summary id c) st =
  if int32 id then
    match reviews_of id st with
    | [] => (inl (NotFound "No reviews found for this book"), st)
    | _ :: _ =>
        match truediv (sum (map Review.rating (reviews_of id st)))
                      (len (reviews_of id st)) with
        | inl e => (inl e, st)
        | inr average_rating =>
            match join " " (map Review.review_text (reviews_of id st)) with
            | inl e => (inl e, st)
            | inr summary =>
                (inr {| average_rating := average_rating; summary := summary |}, st)
            end
        end
    end
  else (inl DBAPIError, st).
Proof.
  enter book_summary Hc. session. rewrite fetch_reviews_of.
  destruct (int32 id); [|reflexivity].
  destruct (reviews_of id st) as [|r l]; [reflexivity|].
  destruct (truediv _ _); [reflexivity|].
  destruct (join _ _); reflexivity.
Qed.
End Authorized.

(** ** The store operations keep the invariant *)

Ltac arith := unfold INT32_MAX, INT32_MIN in *; cbn [books reviews books_id_seq reviews_id_seq] in *; lia.

Lemma book_exists_iff n st :
  book_exists n st = true <-> exists b, In b (books st) /\ Book.id b = Some n.
Proof.
  unfold book_exists. rewrite existsb_exists.
  split; intros [b [Hin Hb]]; exists b; split; auto; apply col_eqb_true; assumption.
Qed.

Lemma book_exists_find n st : book_exists n st = true <-> find_book n st <> [].
Proof. apply (exists_filter Book.id). Qed.

Lemma find_book_unique n st :
  wf st -> find_book n st = [] \/ exists b, find_book n st = [b].
Proof. intros W. apply (nodup_filter_unique Book.id), W. Qed.

Lemma find_book_id n st b t : find_book n st = b :: t -> Book.id b = Some n.
Proof. intros E. apply col_eqb_true. exact (filter_head_true _ _ _ _ E). Qed.

Lemma find_book_In n st b t : find_book n st = b :: t -> In b (books st).
Proof.
  intros E. assert (H : In b (find_book n st)) by (rewrite E; left; reflexivity).
  apply filter_In in H. tauto.
Qed.

Lemma find_book_exists n st :
  wf st -> book_exists n st = true -> exists b, find_book n st = [b].
Proof.
  intros W Hex. destruct (find_book_unique n st W) as [E|E]; [|exact E].
  apply book_exists_find in Hex. contradiction.
Qed.

Lemma find_book_missing n st : book_exists n st = false -> find_book n st = [].
Proof.
  intros Hex. destruct (find_book n st) eqn:E; [reflexivity|].
  assert (H : book_exists n st = true) by (apply book_exists_find; congruence).
  congruence.
Qed.

Lemma book_exists_below n st :
  wf st -> book_exists n st = true -> 1 <= n < books_id_seq st.
Proof.
  intros W Hex. apply book_exists_iff in Hex. destruct Hex as [b [Hin Hb]].
  pose proof (wf_books_below st W) as B. rewrite Forall_forall in B.
  specialize (B (Book.id b) (in_map Book.id _ _ Hin)). rewrite Hb in B. exact B.
Qed.

Lemma int32_between n : 1 <= n <= INT32_MAX -> int32 n = true.
Proof.
  unfold int32, INT32_MIN, INT32_MAX. intros H.
  apply andb_true_iff. split; apply Z.leb_le; arith.
Qed.

Lemma int32_iff n : int32 n = true <-> INT32_MIN <= n <= INT32_MAX.
Proof. unfold int32. rewrite andb_true_iff, !Z.leb_le. tauto. Qed.

(** A key that names a book is a key the driver accepts. *)
Lemma book_exists_int32 n st : wf st -> book_exists n st = true -> int32 n = true.
Proof.
  intros W Hex. pose proof (book_exists_below n st W Hex).
  pose proof (wf_books_seq st W). apply int32_between. arith.
Qed.

Lemma rating_check_iff r : rating_check r = true <-> 1 <= Review.rating r <= 5.
Proof. unfold rating_check. rewrite andb_true_iff, !Z.leb_le. tauto. Qed.

Lemma wf_empty_store : wf empty_store.
Proof. split; cbn; try constructor; unfold INT32_MAX; arith. Qed.

Lemma wf_rollback st now :
  wf st ->
  books_id_seq st <= books_id_seq now <= INT32_MAX + 1 ->
  reviews_id_seq st <= reviews_id_seq now <= INT32_MAX + 1 ->
  wf (rollback st now).
Proof.
  intros [Bn Bb Bq Rs Rb Rq No Ra Tx] Hb Hr. split; cbn; auto; try arith.
  - eapply Forall_impl; [|exact Bb]. intros a Ha. eapply key_below_mono; [exact Ha | arith].
  - eapply Forall_impl; [|exact Rb]. intros a Ha. eapply key_below_mono; [exact Ha | arith].
Qed.

Lemma insert_book_ok b st :
  wf st -> book_params_ok b = true -> books_id_seq st <= INT32_MAX ->
  let row := Book.mk (Some (books_id_seq st)) (Book.title b) (Book.author b)
                     (Book.genre b) (Book.year_published b) (Book.summary b) in
  let st' := mkStore (books st ++ [row]) (reviews st)
                     (books_id_seq st + 1) (reviews_id_seq st) in
  insert_book b st = (inr row, st') /\
  find_book (books_id_seq st) st' = [row] /\
  wf st'.
Proof.
  intros W Hp Hq row st'. unfold insert_book, book_exists.
  rewrite Hp, (below_not_exists Book.id _ _ (wf_books_below _ W)). cbn [negb].
  destruct (Z.ltb_spec INT32_MAX (books_id_seq st)); [arith|].
  split; [reflexivity|]. split.
  - apply (filter_snoc_fresh Book.id); [apply W | reflexivity].
  - destruct W as [Bn Bb Bq Rs Rb Rq No Ra Tx]. split; cbn; auto; try arith.
    + apply (nodup_snoc Book.id (books_id_seq st)); auto.
      apply (below_not_in Book.id). exact Bb.
    + apply (below_snoc Book.id); auto. arith.
    + eapply Forall_impl; [|exact No]. cbn. intros r Hr.
      unfold book_exists in *. cbn. rewrite existsb_app, Hr. reflexivity.
Qed.

(** Whatever the row, [insert_book] leaves a well-formed store, also after a
    rollback. *)
Lemma insert_book_wf b st :
  wf st ->
  wf (snd (insert_book b st)) /\ wf (rollback st (snd (insert_book b st))).
Proof.
  intros W. pose proof (wf_books_seq st W) as Bq. pose proof (wf_reviews_seq st W) as Rq.
  destruct (book_params_ok b) eqn:Hp.
  - destruct (Z.ltb_spec INT32_MAX (books_id_seq st)) as [Hq|Hq].
    + unfold insert_book. rewrite Hp. cbn [negb].
      destruct (Z.ltb_spec INT32_MAX (books_id_seq st)); [|arith]. cbn [snd].
      rewrite rollback_same. split; exact W.
    + destruct (insert_book_ok b st W Hp Hq) as (E & _ & W').
      rewrite E. cbn [snd]. split; [exact W'|].
      apply wf_rollback; [exact W | cbn; arith | cbn; arith].
  - unfold insert_book. rewrite Hp. cbn [negb snd]. rewrite rollback_same.
    split; exact W.
Qed.

Lemma insert_review_ok r st :
  wf st -> review_params_ok r = true -> reviews_id_seq st <= INT32_MAX ->
  rating_check r = true ->
  book_exists (Review.book_id r) st = true ->
  Review.review_text r <> None ->
  let row := Review.mk (Some (reviews_id_seq st)) (Review.book_id r) (Review.user_id r)
                       (Review.review_text r) (Review.rating r) in
  let st' := mkStore (books st) (reviews st ++ [row])
                     (books_id_seq st) (reviews_id_seq st + 1) in
  insert_review r st = (inr row, st') /\
  find_review (reviews_id_seq st) st' = [row] /\
  wf st'.
Proof.
  intros W Hp Hq Hr Hb Ht row st'. unfold insert_review, review_exists.
  rewrite Hp, (below_not_exists Review.id _ _ (wf_reviews_below _ W)), Hr, Hb. cbn [negb].
  destruct (Z.ltb_spec INT32_MAX (reviews_id_seq st)); [arith|].
  split; [reflexivity|]. split.
  - apply (filter_snoc_fresh Review.id); [apply W | reflexivity].
  - destruct W as [Bn Bb Bq Rs Rb Rq No Ra Tx]. split; cbn; auto; try arith.
    + apply (ascending_snoc Review.id (reviews_id_seq st)); auto.
    + apply (below_snoc Review.id); auto. arith.
    + apply Forall_app. split; [exact No|]. constructor; [exact Hb | constructor].
    + apply Forall_app. split; [exact Ra|]. constructor; [exact Hr | constructor].
    + apply Forall_app. split; [exact Tx|]. constructor; [exact Ht | constructor].
Qed.

(** What [insert_review] does, case by case. *)
Lemma insert_review_cases r st :
  let drawn := mkStore (books st) (reviews st) (books_id_seq st) (reviews_id_seq st + 1) in
  (insert_review r st = (inl DBAPIError, st) /\
   (review_params_ok r = false \/ INT32_MAX < reviews_id_seq st)) \/
  (insert_review r st = (inl IntegrityError, drawn) /\
   review_params_ok r = true /\ reviews_id_seq st <= INT32_MAX /\
   (review_exists (reviews_id_seq st) st = true \/ rating_check r = false \/
    book_exists (Review.book_id r) st = false)) \/
  (exists row,
     insert_review r st =
       (inr row, mkStore (books st) (reviews st ++ [row])
                         (books_id_seq st) (reviews_id_seq st + 1)) /\
     row = Review.mk (Some (reviews_id_seq st)) (Review.book_id r) (Review.user_id r)
                     (Review.review_text r) (Review.rating r) /\
     review_params_ok r = true /\ reviews_id_seq st <= INT32_MAX /\
     rating_check r = true /\ book_exists (Review.book_id r) st = true).
Proof.
  intros drawn. unfold insert_review.
  destruct (review_params_ok r); cbn [negb]; [|left; auto].
  destruct (Z.ltb_spec INT32_MAX (reviews_id_seq st)); [left; auto|].
  destruct (review_exists _ _); [right; left; repeat split; auto|].
  destruct (rating_check r); cbn [negb]; [|right; left; repeat split; auto].
  destruct (book_exists _ _); cbn [negb]; [|right; left; repeat split; auto].
  right. right. eexists. repeat split; auto.
Qed.

Lemma insert_review_wf r st :
  wf st -> Review.review_text r <> None ->
  wf (snd (insert_review r st)) /\ wf (rollback st (snd (insert_review r st))).
Proof.
  intros W Ht. pose proof (wf_books_seq st W) as Bq. pose proof (wf_reviews_seq st W) as Rq.
  destruct (insert_review_cases r st) as [[E _]|[(E & _ & Hq & _)|(row & E & _ & Hp & Hq & Hr & Hb)]];
    rewrite E; cbn [snd].
  - rewrite rollback_same. split; exact W.
  - assert (X : wf (mkStore (books st) (reviews st) (books_id_seq st) (reviews_id_seq st + 1))).
    { replace (mkStore _ _ _ _) with
        (rollback st (mkStore (books st) (reviews st) (books_id_seq st) (reviews_id_seq st + 1)))
        by reflexivity.
      apply wf_rollback; [exact W | cbn; arith | cbn; arith]. }
    split; [exact X|]. exact X.
  - destruct (insert_review_ok r st W Hp Hq Hr Hb Ht) as (E' & _ & W').
    rewrite E in E'. injection E' as Hrow. rewrite <- Hrow in W'.
    split; [exact W'|]. apply wf_rollback; [exact W | cbn; arith | cbn; arith].
Qed.

Lemma book_exists_ids k st st' :
  (forall n, In (Some n) (map Book.id (books st')) <-> In (Some n) (map Book.id (books st))) ->
  book_exists k st' = book_exists k st.
Proof.
  intros E.
  assert (X : forall s, book_exists k s = true <-> In (Some k) (map Book.id (books s))).
  { intros s. rewrite book_exists_iff, in_map_iff.
    split; intros [b [H1 H2]]; exists b; tauto. }
  destruct (book_exists k st') eqn:A, (book_exists k st) eqn:B; try reflexivity.
  - apply X, E, X in A. congruence.
  - apply X, E, X in B. congruence.
Qed.

(** What [update_book_row] does, case by case. *)
Lemma update_book_row_cases loaded b st :
  (exists e, update_book_row loaded b st = (inl e, st)) \/
  (update_book_row loaded b st = (inr tt, st) /\ changed loaded b = false) \/
  (exists n,
     Book.id b = Some n /\ book_exists n st = true /\
     changed loaded b = true /\ update_params_ok loaded b = true /\
     update_book_row loaded b st =
       (inr tt, mkStore (filter (fun x => negb (col_eqb (Book.id x) n)) (books st) ++ [b])
                        (reviews st) (books_id_seq st) (reviews_id_seq st))).
Proof.
  unfold update_book_row. destruct (changed loaded b); cbn [negb]; [|right; left; auto].
  destruct (update_params_ok loaded b); cbn [negb]; [|left; eauto].
  destruct (Book.id b) as [n|]; [|left; eauto].
  destruct (book_exists n st) eqn:E; [|left; eauto].
  right. right. exists n. repeat split; auto.
Qed.

Lemma moved_ids b n st k :
  Book.id b = Some n -> book_exists n st = true ->
  In (Some k) (map Book.id (filter (fun x => negb (col_eqb (Book.id x) n)) (books st) ++ [b]))
  <-> In (Some k) (map Book.id (books st)).
Proof.
  intros Hb Hex. rewrite map_app, in_app_iff. cbn [map In]. rewrite Hb, !in_map_iff. split.
  - intros [[x [Hx Hf]]|[E|[]]].
    + exists x. apply filter_In in Hf. tauto.
    + apply book_exists_iff in Hex. destruct Hex as [y [Hy Ey]].
      exists y. split; congruence.
  - intros [x [Hx Hin]]. destruct (Z.eq_dec k n) as [->|Hne]; [auto|].
    left. exists x. split; [exact Hx|]. apply filter_In. split; [exact Hin|].
    rewrite Hx. cbn. apply negb_true_iff, Z.eqb_neq. exact Hne.
Qed.

Lemma update_book_row_wf loaded b st :
  wf st -> wf (snd (update_book_row loaded b st)).
Proof.
  intros W.
  destruct (update_book_row_cases loaded b st) as [[e E]|[[E _]|(n & Hb & Hex & _ & _ & E)]];
    rewrite E; cbn [snd]; try exact W.
  pose proof (book_exists_below n st W Hex) as Hn.
  destruct W as [Bn Bb Bq Rs Rb Rq No Ra Tx].
  split; cbn [books reviews books_id_seq reviews_id_seq]; auto.
  - apply (nodup_snoc Book.id n); [apply nodup_filter, Bn | apply removed_not_in | exact Hb].
  - rewrite map_app. apply Forall_app. split; [apply below_filter, Bb|].
    cbn [map]. rewrite Hb. constructor; [exact Hn | constructor].
  - eapply Forall_impl; [|exact No]. cbn beta. intros r Hr.
    rewrite (book_exists_ids _ st); [exact Hr|].
    intros k. cbn [books]. apply moved_ids; assumption.
Qed.

Lemma update_book_row_others loaded b n k st :
  Book.id b = Some n -> k <> n ->
  find_book k (snd (update_book_row loaded b st)) = find_book k st /\
  reviews (snd (update_book_row loaded b st)) = reviews st.
Proof.
  intros Hb Hk.
  destruct (update_book_row_cases loaded b st) as [[e E]|[[E _]|(m & Hb' & _ & _ & _ & E)]];
    rewrite E; cbn [snd]; try (split; reflexivity).
  assert (m = n) by congruence. subst m. split; [|reflexivity].
  unfold find_book. cbn [books]. rewrite filter_app. cbn. rewrite Hb. cbn.
  destruct (Z.eqb_spec n k); [congruence|]. rewrite app_nil_r.
  apply filter_filter_implied. intros x Hx. apply col_eqb_true in Hx. rewrite Hx. cbn.
  apply negb_true_iff, Z.eqb_neq. exact Hk.
Qed.

Lemma delete_book_row_wf b st : wf st -> wf (delete_book_row b st).
Proof.
  intros W. unfold delete_book_row. destruct (Book.id b) as [n|]; [|assumption].
  destruct W as [Bn Bb Bq Rs Rb Rq No Ra Tx]. split; cbn; auto.
  - apply nodup_filter, Bn.
  - apply below_filter, Bb.
  - apply ascending_filter, Rs.
  - apply below_filter, Rb.
  - rewrite Forall_forall in *. intros r Hr. apply filter_In in Hr.
    destruct Hr as [Hin Hne]. apply negb_true_iff, Z.eqb_neq in Hne.
    specialize (No r Hin). unfold book_exists in *. cbn.
    apply existsb_exists in No. destruct No as [x [Hx Ex]].
    apply existsb_exists. exists x. split; [|assumption].
    apply filter_In. split; [assumption|].
    apply col_eqb_true in Ex. rewrite Ex. cbn.
    apply negb_true_iff, Z.eqb_neq. assumption.
  - rewrite Forall_forall in *. intros r Hr. apply filter_In in Hr. apply Ra, Hr.
  - rewrite Forall_forall in *. intros r Hr. apply filter_In in Hr. apply Tx, Hr.
Qed.

Lemma delete_book_row_others b id k st :
  Book.id b = Some id -> k <> id ->
  find_book k (delete_book_row b st) = find_book k st /\
  reviews_of k (delete_book_row b st) = reviews_of k st.
Proof.
  intros Hb Hk. unfold find_book, reviews_of, delete_book_row. rewrite Hb.
  cbn [books reviews]. split; apply filter_filter_implied; intros x Hx.
  - apply col_eqb_true in Hx. rewrite Hx. cbn.
    apply negb_true_iff, Z.eqb_neq. exact Hk.
  - apply Z.eqb_eq in Hx. apply negb_true_iff, Z.eqb_neq. arith.
Qed.

(** ** Every request keeps the invariant *)

Lemma run_refused {A} (handler : M A) e st :
  handler (SessionLocal st) = (inl e, SessionLocal st) ->
  run handler st = (inl e, st) /\ trace handler st = [].
Proof. intros E. unfold run, trace. rewrite E. split; reflexivity. Qed.

Lemma run_bind_ret {A B} (m : M A) (f : A -> B) st :
  run (x <- m ;; ret (f x)) st =
  (match fst (run m st) with inl e => inl e | inr a => inr (f a) end, snd (run m st)).
Proof.
  unfold run, bind, ret. destruct (m (SessionLocal st)) as [[e|a] s]; reflexivity.
Qed.

Lemma trace_bind_ret {A B} (m : M A) (f : A -> B) st :
  trace (x <- m ;; ret (f x)) st = trace m st.
Proof.
  unfold trace, bind, ret. destruct (m (SessionLocal st)) as [[e|a] s]; reflexivity.
Qed.

Lemma serve_unfold r c st :
  serve r c st =
  match r with
  | POST_books book => snd (run (create_book book c) st)
  | GET_books skip limit => snd (run (read_books skip limit c) st)
  | GET_book id => snd (run (read_book id c) st)
  | PUT_book id book => snd (run (update_book id book c) st)
  | DELETE_book id => snd (run (delete_book id c) st)
  | POST_reviews id review => snd (run (create_review id review c) st)
  | GET_reviews id => snd (run (read_reviews id c) st)
  | GET_summary id => snd (run (book_summary id c) st)
  end.
Proof. unfold serve. destruct r; cbn [handle]; rewrite run_bind_ret; reflexivity. Qed.

(** With any pair but the right one every route raises what
    [authenticate_user] raised, before the session is awaited. *)
Lemma handle_refused r c st :
  authorized c = false ->
  run (handle r c) st = (inl (refusal c), st) /\ trace (handle r c) st = [].
Proof.
  intros Hc. pose proof (authenticate_user_no c (SessionLocal st) Hc) as He.
  destruct r; cbn [handle]; rewrite run_bind_ret, trace_bind_ret.
  - destruct (run_refused (create_book book c) (refusal c) st) as [-> ->];
      [apply create_book_refuses, He | split; reflexivity].
  - destruct (run_refused (read_books skip limit c) (refusal c) st) as [-> ->];
      [apply read_books_refuses, He | split; reflexivity].
  - destruct (run_refused (read_book id c) (refusal c) st) as [-> ->];
      [apply read_book_refuses, He | split; reflexivity].
  - destruct (run_refused (update_book id book c) (refusal c) st) as [-> ->];
      [apply update_book_refuses, He | split; reflexivity].
  - destruct (run_refused (delete_book id c) (refusal c) st) as [-> ->];
      [apply delete_book_refuses, He | split; reflexivity].
  - destruct (run_refused (create_review id review c) (refusal c) st) as [-> ->];
      [apply create_review_refuses, He | split; reflexivity].
  - destruct (run_refused (read_reviews id c) (refusal c) st) as [-> ->];
      [apply read_reviews_refuses, He | split; reflexivity].
  - destruct (run_refused (book_summary id c) (refusal c) st) as [-> ->];
      [apply book_summary_refuses, He | split; reflexivity].
Qed.

Lemma serve_refused r c st : authorized c = false -> serve r c st = st.
Proof.
  intros Hc. destruct (handle_refused r c st Hc) as [E _].
  unfold serve. rewrite E. reflexivity.
Qed.

Lemma wf_serve r c st : wf st -> wf (serve r c st).
Proof.
  intros W. destruct (authorized c) eqn:Hc; [|rewrite serve_refused; assumption].
  rewrite serve_unfold. destruct r.
  - rewrite create_book_run by assumption.
    destruct (insert_book_wf (Book_init book) st W) as [W1 W2].
    destruct (insert_book _ _) as [[e|row] st1]; cbn [snd] in *; [exact W2|].
    destruct (Book.id row); [|exact W1].
    destruct (int32 _); [|exact W1]. destruct (find_book _ _); exact W1.
  - rewrite read_books_run by assumption. exact W.
  - rewrite read_book_run by assumption. destruct (int32 id); [|exact W].
    destruct (find_book id st) as [|b [|b' l]]; exact W.
  - rewrite update_book_run by assumption. destruct (int32 id); [|exact W].
    destruct (find_book id st) as [|b [|b' l]]; try exact W.
    pose proof (update_book_row_wf b (setattrs b book) st W) as W1.
    destruct (update_book_row_cases b (setattrs b book) st)
      as [[e X]|[[X _]|(n & _ & _ & _ & _ & X)]]; rewrite X in *; cbn [snd] in *.
    + rewrite rollback_same. exact W.
    + destruct (find_book id st); exact W.
    + match goal with |- context [find_book id ?s] => destruct (find_book id s) end; exact W1.
  - rewrite delete_book_run by assumption. destruct (int32 id); [|exact W].
    destruct (find_book id st) as [|b [|b' l]]; try exact W.
    apply delete_book_row_wf, W.
  - rewrite create_review_run by assumption. destruct (int32 id); [|exact W].
    destruct (find_book id st) as [|b [|b' l]]; try exact W.
    destruct (insert_review_wf (Review_init review id) st W) as [W1 W2];
      [cbn; discriminate|].
    destruct (insert_review _ _) as [[e|row] st1]; cbn [snd] in *; [exact W2|].
    destruct (Review.id row); [|exact W1].
    destruct (int32 _); [|exact W1]. destruct (find_review _ _); exact W1.
  - rewrite read_reviews_run by assumption. destruct (int32 id); exact W.
  - rewrite book_summary_run by assumption. destruct (int32 id); [|exact W].
    destruct (reviews_of id st); [exact W|].
    destruct (truediv _ _); [exact W|].
    destruct (join _ _); exact W.
Qed.

Lemma reachable_wf st : reachable st -> wf st.
Proof.
  induction 1 as [|r c st _ IH]; [apply wf_empty_store | apply wf_serve, IH].
Qed.

Lemma reachable_library : reachable library.
Proof. repeat apply reachable_serve. apply reachable_init. Qed.

Lemma reachable_library3 : reachable library3.
Proof. apply reachable_serve, reachable_library. Qed.

Lemma reachable_shelf : reachable shelf.
Proof. repeat apply reachable_serve. apply reachable_init. Qed.

Lemma reachable_shelf_retitled : reachable shelf_retitled.
Proof. apply reachable_serve, reachable_shelf. Qed.

(** ** Division to a double *)

Section Rounding.
Variables n d : Z.
Hypothesis Hd : 0 < d.

Lemma round_half_even_error : 2 * Z.abs (round_half_even n d * d - n) <= d.
Proof.
  unfold round_half_even.
  pose proof (Z.div_mod n d ltac:(lia)) as E.
  pose proof (Z.mod_pos_bound n d Hd) as B.
  destruct (Z.ltb_spec (2 * (n mod d)) d); [nia|].
  destruct (Z.ltb_spec d (2 * (n mod d))); [nia|].
  destruct (Z.even (n / d)); nia.
Qed.

Lemma round_half_even_exact k : n = k * d -> round_half_even n d = k.
Proof.
  intros ->. unfold round_half_even.
  rewrite Z.mod_mul, Z.div_mul by lia.
  destruct (Z.ltb_spec (2 * 0) d); [reflexivity | lia].
Qed.

Lemma round_half_even_lower k : k * d <= n -> k <= round_half_even n d.
Proof.
  intros H. unfold round_half_even.
  pose proof (Z.div_mod n d ltac:(lia)) as E.
  pose proof (Z.mod_pos_bound n d Hd) as B.
  assert (k <= n / d) by (apply Z.div_le_lower_bound; lia).
  destruct (Z.ltb_spec (2 * (n mod d)) d); [lia|].
  destruct (Z.ltb_spec d (2 * (n mod d))); [lia|].
  destruct (Z.even (n / d)); lia.
Qed.

Lemma round_half_even_upper k : n <= k * d -> round_half_even n d <= k.
Proof.
  intros H. unfold round_half_even.
  pose proof (Z.div_mod n d ltac:(lia)) as E.
  pose proof (Z.mod_pos_bound n d Hd) as B.
  assert (Hq : n / d <= k) by (apply Z.div_le_upper_bound; lia).
  assert (Hk : n / d = k -> n mod d = 0) by nia.
  destruct (Z.ltb_spec (2 * (n mod d)) d); [lia|].
  destruct (Z.ltb_spec d (2 * (n mod d))); [lia|].
  destruct (Z.even (n / d)); lia.
Qed.
End Rounding.

(** A quotient between 1 and 5 lies in one of three binades. *)
Lemma binade_of_rating a b :
  0 < b -> b <= a <= 5 * b ->
  exists l, binade a b = l /\ 0 <= l <= 2 /\ b * 2 ^ l <= a < b * 2 ^ (l + 1).
Proof.
  intros Hb Hab. unfold binade.
  pose proof (Z.log2_spec a ltac:(lia)) as [La Ua].
  pose proof (Z.log2_spec b Hb) as [Lb Ub].
  pose proof (Z.log2_nonneg b) as Nb.
  assert (D0 : Z.log2 b <= Z.log2 a) by (apply Z.log2_le_mono; lia).
  assert (D3 : Z.log2 a <= Z.log2 b + 3).
  { replace (Z.log2 b + 3) with (Z.log2 (b * 2 ^ 3))
      by (rewrite Z.log2_mul_pow2 by lia; lia).
    apply Z.log2_le_mono. lia. }
  remember (Z.log2 a - Z.log2 b) as dd eqn:Hdd.
  assert (Ea : Z.log2 a = Z.log2 b + dd) by lia.
  rewrite Ea in La, Ua. replace (Z.succ (Z.log2 b + dd)) with (Z.log2 b + (dd + 1)) in Ua by lia.
  replace (Z.succ (Z.log2 b)) with (Z.log2 b + 1) in Ub by lia.
  rewrite Z.pow_add_r in La, Ua, Ub by lia.
  remember (2 ^ Z.log2 b) as p eqn:Hp. assert (0 < p) by (subst p; apply Z.pow_pos_nonneg; lia).
  unfold scaled_leb.
  assert (Hcases : dd = 0 \/ dd = 1 \/ dd = 2 \/ dd = 3) by lia.
  destruct Hcases as [-> | [-> | [-> | ->]]]; cbn [Z.leb Z.compare] in *;
    change (2 ^ 0) with 1 in *; change (2 ^ 1) with 2 in *;
    change (2 ^ 2) with 4 in *; change (2 ^ 3) with 8 in *;
    change (2 ^ (0 + 1)) with 2 in *; change (2 ^ (1 + 1)) with 4 in *;
    change (2 ^ (2 + 1)) with 8 in *; change (2 ^ (3 + 1)) with 16 in *.
  - destruct (Z.leb_spec (b * 1) a); [|lia].
    exists 0. repeat split; try lia.
  - destruct (Z.leb_spec (b * 2) a).
    + exists 1. repeat split; try lia.
    + exists 0. replace (1 - 1) with 0 by lia. repeat split; try lia.
  - destruct (Z.leb_spec (b * 4) a).
    + exists 2. repeat split; try lia.
    + exists 1. replace (2 - 1) with 1 by lia. repeat split; try lia.
  - destruct (Z.leb_spec (b * 8) a); [lia|].
    exists 2. replace (3 - 1) with 2 by lia. repeat split; try lia.
Qed.

(** For such a quotient the double is [m / 2 ^ k] with [k] from 50 to 52 and
    [m] the rounded 53-bit significand. *)
Lemma nearest_double_of_rating a b :
  0 < b -> b <= a <= 5 * b ->
  exists k,
    50 <= k <= 52 /\
    b * 2 ^ 52 <= a * 2 ^ k < b * 2 ^ 53 /\
    nearest_double a b =
      Some (Qred (Qmake (round_half_even (a * 2 ^ k) b) (Z.to_pos (2 ^ k)))).
Proof.
  intros Hb Hab. destruct (binade_of_rating a b Hb Hab) as (l & El & Hl & Lo & Hi).
  unfold nearest_double. rewrite El.
  assert (Hcases : l = 0 \/ l = 1 \/ l = 2) by lia.
  destruct Hcases as [-> | [-> | ->]].
  - exists 52. change (2 ^ 0) with 1 in *. change (2 ^ (0 + 1)) with 2 in *.
    split; [lia|]. split; [change (2 ^ 53) with (2 * 2 ^ 52); lia|]. reflexivity.
  - exists 51. change (2 ^ 1) with 2 in *. change (2 ^ (1 + 1)) with 4 in *.
    split; [lia|].
    split; [change (2 ^ 53) with (4 * 2 ^ 51); change (2 ^ 52) with (2 * 2 ^ 51); lia|].
    reflexivity.
  - exists 50. change (2 ^ 2) with 4 in *. change (2 ^ (2 + 1)) with 8 in *.
    split; [lia|].
    split; [change (2 ^ 53) with (8 * 2 ^ 50); change (2 ^ 52) with (4 * 2 ^ 50); lia|].
    reflexivity.
Qed.

Lemma Qdiv_inject a b : 0 < b -> Qeq (Qdiv (inject_Z a) (inject_Z b)) (Qmake a (Z.to_pos b)).
Proof.
  intros Hb. destruct b as [|p|p]; try lia.
  unfold Qdiv, Qinv, Qmult, inject_Z, Qeq. cbn. lia.
Qed.

(** The double for a quotient between 1 and 5: it lies between 1 and 5, has
    denominator [2 ^ 52], is off by at most one part in [2 ^ 53], and is the
    quotient itself when that has denominator [2 ^ 50]. *)
Lemma truediv_of_rating a b :
  0 < b -> b <= a <= 5 * b ->
  exists q,
    truediv a b = inr q /\
    (1 <= q)%Q /\ (q <= 5)%Q /\
    dyadic 52 q /\
    (Qabs (q - Qdiv (inject_Z a) (inject_Z b))
     <= Qdiv (inject_Z a) (inject_Z b) * Qmake 1 (Z.to_pos (2 ^ 53)))%Q /\
    (dyadic 50 (Qdiv (inject_Z a) (inject_Z b)) ->
     Qeq q (Qdiv (inject_Z a) (inject_Z b))).
Proof.
  intros Hb Hab.
  destruct (nearest_double_of_rating a b Hb Hab) as (k & Hk & [Lo Hi] & E).
  set (m := round_half_even (a * 2 ^ k) b) in *.
  pose proof (round_half_even_error (a * 2 ^ k) b Hb) as Herr. fold m in Herr.
  assert (Hp : 0 < 2 ^ k) by (apply Z.pow_pos_nonneg; lia).
  assert (Hm1 : 2 ^ k <= m)
    by (apply round_half_even_lower; [exact Hb | nia]).
  assert (Hm5 : m <= 5 * 2 ^ k)
    by (apply round_half_even_upper; [exact Hb | nia]).
  exists (Qred (Qmake m (Z.to_pos (2 ^ k)))).
  assert (Hq : Qeq (Qred (Qmake m (Z.to_pos (2 ^ k)))) (Qmake m (Z.to_pos (2 ^ k))))
    by apply Qred_correct.
  assert (Hx := Qdiv_inject a b Hb).
  split.
  { unfold truediv. destruct (Z.eqb_spec b 0); [lia|]. destruct (Z.eqb_spec a 0); [lia|].
    rewrite !Z.abs_eq by lia. rewrite E.
    rewrite (Z.sgn_pos a), (Z.sgn_pos b) by lia. reflexivity. }
  split; [|split; [|split; [|split]]].
  - rewrite Hq. unfold Qle. cbn [Qnum Qden]. rewrite Z2Pos.id by lia. lia.
  - rewrite Hq. unfold Qle. cbn [Qnum Qden]. rewrite Z2Pos.id by lia. lia.
  - exists (m * 2 ^ (52 - k)). rewrite Hq. unfold Qeq. cbn [Qnum Qden].
    rewrite !Z2Pos.id by lia.
    replace (2 ^ 52) with (2 ^ (52 - k) * 2 ^ k)
      by (rewrite <- Z.pow_add_r by lia; f_equal; lia).
    ring.
  - rewrite Hq, Hx. apply Qabs_Qle_condition.
    unfold Qle, Qminus, Qplus, Qopp, Qmult. cbn [Qnum Qden].
    rewrite !Pos2Z.inj_mul, !Z2Pos.id by lia.
    assert (H53 : 2 ^ 53 = 2 * 2 ^ 52) by reflexivity.
    assert (H52 : 0 < 2 ^ 52) by reflexivity.
    split; nia.
  - intros [j Hj]. rewrite Hx in Hj. rewrite Hq, Hx.
    unfold Qeq in *. cbn [Qnum Qden] in *. rewrite !Z2Pos.id in * by lia.
    assert (Hjk : a * 2 ^ k = j * 2 ^ (k - 50) * b).
    { replace (2 ^ k) with (2 ^ 50 * 2 ^ (k - 50))
        by (rewrite <- Z.pow_add_r by lia; f_equal; lia).
      nia. }
    assert (Em : m = j * 2 ^ (k - 50))
      by (apply round_half_even_exact; [exact Hb | exact Hjk]).
    rewrite Em. nia.
Qed.

(** ** One transaction per request *)

Lemma session_bind_ret {A B} (m : M A) (f : A -> B) s :
  snd ((x <- m ;; ret (f x)) s) = snd (m s).
Proof. unfold bind, ret. destruct (m s) as [[e|a] s']; reflexivity. Qed.

Lemma serve_session r c st : serve r c st = db (snd (handle r c (SessionLocal st))).
Proof. unfold serve, run. destruct (handle r c (SessionLocal st)); reflexivity. Qed.

Ltac branch :=
  match goal with
  | |- context [fetch ?q ?t] => destruct (fetch q t) as [?|[|? [|? ?]]]
  | |- context [insert_book ?b ?s] => destruct (insert_book b s) as [[?|?] ?]
  | |- context [insert_review ?r ?s] => destruct (insert_review r s) as [[?|?] ?]
  | |- context [update_book_row ?l ?b ?s] => destruct (update_book_row l b s) as [[?|?] ?]
  | |- context [match Book.id ?b with _ => _ end] => destruct (Book.id b)
  | |- context [match Review.id ?b with _ => _ end] => destruct (Review.id b)
  | |- context [truediv ?a ?b] => destruct (truediv a b)
  | |- context [join ?a ?b] => destruct (join a b)
  end.

Ltac branches := repeat (cbn -[commits join truediv sum len fetch]; try branch).

Lemma handler_commits r c st :
  let s := snd (handle r c (SessionLocal st)) in
  (commits (calls s) <= 1)%nat /\
  (commits (calls s) = 0%nat -> db s = st) /\
  (is_read r = true -> commits (calls s) = 0%nat).
Proof.
  cbv zeta. destruct (authorized c) eqn:Hc.
  - pose proof (fun s => authenticate_user_ok c s Hc) as Ok.
    destruct r; cbn [handle is_read]; rewrite session_bind_ret.
    + unfold create_book; session; rewrite !Ok.
      branches; cbn; repeat split; try lia; try discriminate.
    + unfold read_books; session; rewrite !Ok.
      branches; cbn; repeat split; try lia; try discriminate.
    + unfold read_book; session; rewrite !Ok.
      branches; cbn; repeat split; try lia; try discriminate.
    + unfold update_book; session; rewrite !Ok.
      branches; cbn; repeat split; try lia; try discriminate.
    + unfold delete_book; session; rewrite !Ok.
      branches; cbn; repeat split; try lia; try discriminate.
    + unfold create_review; session; rewrite !Ok.
      branches; cbn; repeat split; try lia; try discriminate.
    + unfold read_reviews; session; rewrite !Ok.
      branches; cbn; repeat split; try lia; try discriminate.
    + unfold book_summary; session; rewrite !Ok.
      branches; cbn; repeat split; try lia; try discriminate.
  - pose proof (authenticate_user_no c (SessionLocal st) Hc) as No.
    destruct r; cbn [handle is_read]; rewrite session_bind_ret.
    + rewrite (create_book_refuses _ _ _ No). cbn. repeat split; lia.
    + rewrite (read_books_refuses _ _ _ No). cbn. repeat split; lia.
    + rewrite (read_book_refuses _ _ _ No). cbn. repeat split; lia.
    + rewrite (update_book_refuses _ _ _ No). cbn. repeat split; lia.
    + rewrite (delete_book_refuses _ _ _ No). cbn. repeat split; lia.
    + rewrite (create_review_refuses _ _ _ No). cbn. repeat split; lia.
    + rewrite (read_reviews_refuses _ _ _ No). cbn. repeat split; lia.
    + rewrite (book_summary_refuses _ _ _ No). cbn. repeat split; lia.
Qed.

(** * The claims *)

(** ** Authentication comes first *)

(** C7, as stated, fails: the right user name with the right password
    followed by a NUL is not the configured pair, yet the call does not fail
    with the 401: passlib raises on the NUL. *)
Lemma unauthorized_counterexample :
  nul_padded <> mkCredentials "admin" "password" /\
  run (handle (DELETE_book 1) nul_padded) library = (inl PasswordValueError, library) /\
  PasswordValueError <> Unauthorized.
Proof.
  split; [discriminate|]. split; [|discriminate].
  exact (proj1 (handle_refused (DELETE_book 1) nul_padded library eq_refl)).
Qed.

(** C7, amended.  Whatever the operation, a credential pair other than the
    configured one makes the call fail before the session is ever awaited: no
    database call is made and the store is as it was.  The failure is the 401
    with the Basic challenge, unless the user name has a non-ASCII character
    (TypeError) or, failing that, the password is longer than 4096 characters
    or holds a NUL (PasswordValueError). *)
Theorem unauthorized_before_store_access r c st :
  c <> mkCredentials "admin" "password" ->
  run (handle r c) st = (inl (refusal c), st) /\
  trace (handle r c) st = [] /\
  (all_ascii (username c) = true ->
   Z.of_nat (String.length (password c)) <= MAX_PASSWORD_SIZE ->
   has_nul (password c) = false ->
   refusal c = HTTPException 401 "Incorrect username or password"
                             [("WWW-Authenticate", "Basic")]) /\
  (all_ascii (username c) = false -> refusal c = TypeError) /\
  (all_ascii (username c) = true ->
   MAX_PASSWORD_SIZE < Z.of_nat (String.length (password c)) \/ has_nul (password c) = true ->
   refusal c = PasswordValueError).
Proof.
  intros Hne.
  assert (Hc : authorized c = false).
  { destruct (authorized c) eqn:E; [|reflexivity].
    apply authorized_iff in E. contradiction. }
  destruct (handle_refused r c st Hc) as [Hr Ht].
  split; [exact Hr|]. split; [exact Ht|]. unfold refusal. split; [|split].
  - intros -> Hl ->. cbn [negb]. destruct (Z.ltb_spec MAX_PASSWORD_SIZE
      (Z.of_nat (String.length (password c)))); [lia | reflexivity].
  - intros ->. reflexivity.
  - intros -> [Hl | Hn]; cbn [negb].
    + destruct (Z.ltb_spec MAX_PASSWORD_SIZE (Z.of_nat (String.length (password c))));
        [reflexivity | lia].
    + rewrite Hn, orb_true_r. reflexivity.
Qed.

Lemma unauthorized_before_store_access_witness :
  run (handle (DELETE_book 1) intruder) library = (inl Unauthorized, library) /\
  trace (handle (DELETE_book 1) intruder) library = [].
Proof.
  destruct (unauthorized_before_store_access (DELETE_book 1) intruder library)
    as (H1 & H2 & _).
  - discriminate.
  - split; assumption.
Defined.

(** ** Deleting a book *)

Lemma delete_book_trace st c id b :
  authorized c = true -> int32 id = true -> find_book id st = [b] ->
  trace (delete_book id c) st = [Execute; Delete; Commit].
Proof.
  intros Hc Hi E. enter delete_book Hc. session. rewrite fetch_by_key, Hi.
  fold (find_book id st). rewrite E. reflexivity.
Qed.

(** C1.  In every reachable store each review belongs to a book that is
    there.  Deleting a book is one commit that takes the book and every review
    of it, and nothing else; afterwards the book's reviews list as empty and
    the book reads as a 404. *)
Theorem delete_book_cascades st :
  reachable st ->
  Forall (fun r => book_exists (Review.book_id r) st = true) (reviews st) /\
  (forall c id,
     authorized c = true -> book_exists id st = true ->
     exists st',
       run (delete_book id c) st = (inr [("detail", "Book deleted")], st') /\
       trace (delete_book id c) st = [Execute; Delete; Commit] /\
       reachable st' /\
       len (reviews st') = len (reviews st) - len (reviews_of id st) /\
       (forall r, In r (reviews st') <-> In r (reviews st) /\ Review.book_id r <> id) /\
       (forall b, In b (books st') <-> In b (books st) /\ Book.id b <> Some id) /\
       run (read_reviews id c) st' = (inr [], st') /\
       run (read_book id c) st' = (inl (NotFound "Book not found"), st')).
Proof.
  intros R. pose proof (reachable_wf st R) as W.
  split; [apply W|].
  intros c id Hc Hex.
  pose proof (book_exists_int32 id st W Hex) as Hi.
  destruct (find_book_exists id st W Hex) as [b E].
  assert (Hb : Book.id b = Some id) by (eapply find_book_id; exact E).
  assert (Hrun : run (delete_book id c) st =
                 (inr [("detail", "Book deleted")], delete_book_row b st))
    by (rewrite delete_book_run by assumption; rewrite Hi, E; reflexivity).
  exists (delete_book_row b st).
  split; [exact Hrun|]. split; [exact (delete_book_trace st c id b Hc Hi E)|].
  split.
  { replace (delete_book_row b st) with (serve (DELETE_book id) c st).
    - apply reachable_serve, R.
    - rewrite serve_unfold, Hrun. reflexivity. }
  unfold delete_book_row. rewrite Hb. cbn [reviews books].
  split; [apply filter_split_length|].
  split.
  { intros r. rewrite filter_In, negb_true_iff, Z.eqb_neq. tauto. }
  split.
  { intros x. rewrite filter_In, negb_true_iff. split; intros [Hin Hx]; split; auto.
    - intros Hid. apply col_eqb_true in Hid. congruence.
    - destruct (col_eqb (Book.id x) id) eqn:Ex; [|reflexivity].
      apply col_eqb_true in Ex. contradiction. }
  split.
  - rewrite read_reviews_run by assumption. rewrite Hi. unfold reviews_of. cbn [reviews].
    rewrite filter_negb_filter. reflexivity.
  - rewrite read_book_run by assumption. rewrite Hi. unfold find_book. cbn [books].
    rewrite filter_negb_filter. reflexivity.
Qed.

Lemma delete_book_cascades_witness :
  len (reviews_of 1 library) = 2 /\
  exists st',
    run (delete_book 1 admin) library = (inr [("detail", "Book deleted")], st') /\
    run (read_reviews 1 admin) st' = (inr [], st') /\
    run (read_book 1 admin) st' = (inl (NotFound "Book not found"), st').
Proof.
  split; [reflexivity|].
  destruct (delete_book_cascades library reachable_library) as [_ H].
  destruct (H admin 1 eq_refl eq_refl) as (st' & E & _ & _ & _ & _ & _ & L & G).
  exists st'. repeat split; assumption.
Defined.

(** ** Out-of-range ratings *)

Lemma storable_review_params review id :
  review_params_ok (Review_init review id) = int32 id && storable_review review.
Proof.
  unfold review_params_ok, storable_review. cbn.
  destruct (int32 id), (int32 (ReviewCreate.user_id review)),
    (int32 (ReviewCreate.rating review)); reflexivity.
Qed.

(** C2, as stated, fails: for a book that does not exist the call with rating
    0 is answered 404, which is neither a validation nor a constraint error. *)
Lemma create_review_out_of_range_counterexample :
  let review := ReviewCreate.mk 7 "Great" 0 in
  ~ (1 <= ReviewCreate.rating review <= 5) /\
  run (create_review 1 review admin) empty_store =
    (inl (NotFound "Book not found"), empty_store) /\
  ~ (exists e, fst (run (create_review 1 review admin) empty_store) = inl e /\
               validation_or_constraint e = true).
Proof.
  cbv zeta. split; [cbn; lia|]. split; [reflexivity|].
  intros [e [He Hv]]. cbn in He. inversion He; subst. discriminate.
Qed.

(** C2, amended.  A review whose rating lies outside 1..5 is never stored:
    the call fails and both tables are as they were.  With the right
    credentials the failure is the driver's error for a book key beyond int4,
    else the 404 when the book does not exist, else the driver's error when
    [user_id] or [rating] is beyond int4, the text holds a NUL or the sequence
    is used up, and otherwise the store's constraint error; only in this last
    case is anything left behind, the key drawn from the reviews sequence. *)
Theorem create_review_out_of_range st c id review :
  ~ (1 <= ReviewCreate.rating review <= 5) ->
  exists e st',
    run (create_review id review c) st = (inl e, st') /\
    books st' = books st /\ reviews st' = reviews st /\
    books_id_seq st' = books_id_seq st /\
    (reachable st -> authorized c = true ->
     e = (if negb (int32 id) then DBAPIError
          else if negb (book_exists id st) then NotFound "Book not found"
          else if negb (storable_review review) || (INT32_MAX <? reviews_id_seq st)
               then DBAPIError
          else IntegrityError) /\
     reviews_id_seq st' =
       (if validation_or_constraint e then reviews_id_seq st + 1 else reviews_id_seq st)).
Proof.
  intros Hr.
  assert (Hk : rating_check (Review_init review id) = false).
  { destruct (rating_check _) eqn:E; [|reflexivity].
    apply rating_check_iff in E. contradiction. }
  destruct (authorized c) eqn:Hc.
  - rewrite create_review_run by assumption.
    destruct (int32 id) eqn:Hi; cbn [negb].
    2:{ exists DBAPIError, st. do 4 (split; [reflexivity|]). intros _ _.
        split; reflexivity. }
    destruct (find_book id st) as [|b [|b' l]] eqn:F.
    + exists (NotFound "Book not found"), st. do 4 (split; [reflexivity|]). intros _ _.
      assert (X : book_exists id st = false).
      { destruct (book_exists id st) eqn:X; [|reflexivity].
        apply book_exists_find in X. congruence. }
      rewrite X. split; reflexivity.
    + assert (X : book_exists id st = true) by (apply book_exists_find; congruence).
      rewrite X. cbn [negb].
      destruct (insert_review_cases (Review_init review id) st)
        as [[E Hd]|[(E & Hp & Hq & _)|(row & _ & _ & _ & _ & Hr' & _)]];
        [| |congruence]; rewrite E.
      * rewrite storable_review_params, Hi in Hd. cbn [andb] in Hd.
        exists DBAPIError, (rollback st st). rewrite rollback_same.
        do 4 (split; [reflexivity|]). intros _ _.
        assert (Y : negb (storable_review review) || (INT32_MAX <? reviews_id_seq st) = true).
        { destruct Hd as [-> | Hd]; [reflexivity|].
          apply orb_true_iff. right. apply Z.ltb_lt. exact Hd. }
        rewrite Y. split; reflexivity.
      * rewrite storable_review_params, Hi in Hp. cbn [andb] in Hp.
        eexists IntegrityError, _. split; [reflexivity|].
        cbn [rollback books reviews books_id_seq reviews_id_seq].
        do 3 (split; [reflexivity|]). intros _ _.
        assert (Y : negb (storable_review review) || (INT32_MAX <? reviews_id_seq st) = false).
        { rewrite Hp. cbn [negb orb]. apply Z.ltb_ge. exact Hq. }
        rewrite Y. split; reflexivity.
    + exists MultipleResultsFound, st. do 4 (split; [reflexivity|]). intros R _.
      apply reachable_wf in R.
      destruct (find_book_unique id st R) as [X|[x X]]; rewrite X in F; discriminate.
  - destruct (handle_refused (POST_reviews id review) c st Hc) as [E _].
    cbn [handle] in E. rewrite run_bind_ret in E.
    destruct (run (create_review id review c) st) as [[e|row] st'] eqn:X;
      cbn [fst snd] in E; [|discriminate].
    injection E as -> ->. exists (refusal c), st.
    do 4 (split; [reflexivity|]). intros _ H. discriminate H.
Qed.

Lemma create_review_out_of_range_witness :
  exists st',
    run (create_review 1 (ReviewCreate.mk 7 "Great" 6) admin) library =
      (inl IntegrityError, st') /\
    reviews st' = reviews library /\ reviews_id_seq st' = reviews_id_seq library + 1.
Proof.
  destruct (create_review_out_of_range library admin 1 (ReviewCreate.mk 7 "Great" 6))
    as (e & st' & He & _ & Hrev & _ & Hk).
  - cbn. lia.
  - destruct (Hk reachable_library eq_refl) as [E S].
    cbn in E. subst e. exists st'. repeat split; assumption.
Defined.

(** ** The summary of a book *)

Lemma join_error sep items e : join sep items = inl e -> e = TypeError.
Proof.
  revert e. induction items as [|[x|] rest IH]; intros e H; cbn in H.
  - discriminate.
  - destruct rest as [|y rest']; [discriminate|].
    destruct (join sep (y :: rest')) as [e'|s]; [|discriminate].
    inversion H; subst. apply IH. reflexivity.
  - congruence.
Qed.

Lemma sum_fold_right l : sum l = fold_right Z.add 0 l.
Proof.
  unfold sum. apply fold_symmetric; intros; lia.
Qed.

Lemma join_concat sep (items : list Review.t) :
  Forall (fun r => Review.review_text r <> None) items ->
  map Review.review_text items = map Some (map text_of items) /\
  join sep (map Review.review_text items) = inr (String.concat sep (map text_of items)).
Proof.
  induction 1 as [|r rest Hr _ [IHm IHj]]; [split; reflexivity|].
  cbn [map]. change (text_of r) with (default "" (Review.review_text r)).
  destruct (Review.review_text r) as [x|]; [|contradiction]. cbn [default].
  split; [rewrite IHm; reflexivity|].
  destruct rest as [|r' rest']; [reflexivity|].
  cbn [map join String.concat] in *. rewrite IHj. reflexivity.
Qed.

Lemma total_bounds (values : list Z) :
  Forall (fun v => 1 <= v <= 5) values ->
  Z.of_nat (List.length values) <= fold_right Z.add 0 values
  <= 5 * Z.of_nat (List.length values).
Proof.
  induction 1 as [|v t Hv _ IH]; cbn [List.length fold_right]; lia.
Qed.

Lemma truediv_never_by_zero {A} (r : A) l a : truediv a (len (r :: l)) <> inl ZeroDivisionError.
Proof.
  unfold truediv, len. cbn [List.length].
  destruct (Z.eqb_spec (Z.of_nat (S (List.length l))) 0); [lia|].
  destruct (a =? 0); [discriminate|].
  destruct (nearest_double _ _); discriminate.
Qed.

(** The quotient [book_summary] computes over the reviews of a well-formed
    store. *)
Lemma average_of_reviews st id :
  wf st -> reviews_of id st <> [] ->
  exists avg,
    truediv (sum (map Review.rating (reviews_of id st))) (len (reviews_of id st)) = inr avg /\
    (1 <= avg)%Q /\ (avg <= 5)%Q /\ dyadic 52 avg /\
    (Qabs (avg - mean (map Review.rating (reviews_of id st)))
     <= mean (map Review.rating (reviews_of id st)) * Qmake 1 (Z.to_pos (2 ^ 53)))%Q /\
    (dyadic 50 (mean (map Review.rating (reviews_of id st))) ->
     Qeq avg (mean (map Review.rating (reviews_of id st)))).
Proof.
  intros W Hne.
  assert (Hr : Forall (fun v => 1 <= v <= 5) (map Review.rating (reviews_of id st))).
  { apply Forall_map. pose proof (wf_rating st W) as Ra.
    rewrite Forall_forall in *. intros x Hx. apply filter_In in Hx.
    apply rating_check_iff, Ra, Hx. }
  pose proof (total_bounds _ Hr) as B. rewrite length_map in B.
  unfold mean. rewrite sum_fold_right, length_map. unfold len.
  apply truediv_of_rating; [|lia].
  destruct (reviews_of id st); [contradiction | cbn [List.length]; lia].
Qed.

Lemma book_summary_ok st c id :
  wf st -> authorized c = true -> int32 id = true -> reviews_of id st <> [] ->
  exists avg,
    run (book_summary id c) st =
      (inr {| average_rating := avg;
              summary := String.concat " " (map text_of (reviews_of id st)) |}, st) /\
    truediv (sum (map Review.rating (reviews_of id st))) (len (reviews_of id st)) = inr avg.
Proof.
  intros W Hc Hi Hne.
  assert (Ht : Forall (fun r => Review.review_text r <> None) (reviews_of id st)).
  { pose proof (wf_text st W) as T. rewrite Forall_forall in *.
    intros r Hr. apply filter_In in Hr. apply T, Hr. }
  destruct (join_concat " " _ Ht) as [_ Hj].
  destruct (average_of_reviews st id W Hne) as (avg & Ha & _).
  exists avg. split; [|exact Ha].
  rewrite book_summary_run by assumption. rewrite Hi, Ha, Hj.
  destruct (reviews_of id st); [contradiction | reflexivity].
Qed.

Lemma reviews_of_orphan_free id st :
  wf st -> book_exists id st = false -> reviews_of id st = [].
Proof.
  intros W Hex. destruct (reviews_of id st) as [|r l] eqn:E; [reflexivity|].
  exfalso.
  assert (Hin : In r (reviews_of id st)) by (rewrite E; left; reflexivity).
  apply filter_In in Hin. destruct Hin as [Hin Hid]. apply Z.eqb_eq in Hid.
  pose proof (wf_no_orphan st W) as No. rewrite Forall_forall in No.
  specialize (No r Hin). congruence.
Qed.

(** C10, as stated, fails: for a key beyond int4 no review is there and the
    divisor would not be positive, yet the call does not fail with the 404:
    the driver has refused the query. *)
Lemma book_summary_division_counterexample :
  reviews_of 2147483648 library = [] /\
  len (reviews_of 2147483648 library) = 0 /\
  run (book_summary 2147483648 admin) library = (inl DBAPIError, library).
Proof. repeat split. Qed.

(** C10, amended.  The summary never divides by zero: either the query was
    refused for a key beyond int4, or no review was found and the handler has
    already raised the 404, or the divisor is the positive number of reviews;
    on a reachable store the quotient then exists. *)
Theorem book_summary_division_guarded st c id :
  fst (run (book_summary id c) st) <> inl ZeroDivisionError /\
  (authorized c = true ->
   (int32 id = false /\ run (book_summary id c) st = (inl DBAPIError, st))
   \/
   (reviews_of id st = [] /\
    run (book_summary id c) st =
      (inl (NotFound "No reviews found for this book"), st))
   \/
   (0 < len (reviews_of id st) /\
    truediv (sum (map Review.rating (reviews_of id st)))
            (len (reviews_of id st)) <> inl ZeroDivisionError /\
    (reachable st ->
     exists q, truediv (sum (map Review.rating (reviews_of id st)))
                       (len (reviews_of id st)) = inr q))).
Proof.
  assert (Hpos : forall (r : Review.t) l, 0 < len (r :: l))
    by (intros r l; unfold len; cbn [List.length]; lia).
  split.
  - destruct (authorized c) eqn:Hc.
    + rewrite book_summary_run by assumption.
      destruct (int32 id); [|discriminate].
      destruct (reviews_of id st) as [|r l]; [discriminate|].
      pose proof (truediv_never_by_zero r l (sum (map Review.rating (r :: l)))) as Hz.
      destruct (truediv _ _) as [e|q]; [cbn; congruence|].
      destruct (join _ _) as [e|s] eqn:E; [|discriminate].
      apply join_error in E. subst e. discriminate.
    + destruct (handle_refused (GET_summary id) c st Hc) as [E _].
      cbn [handle] in E. rewrite run_bind_ret in E.
      destruct (run (book_summary id c) st) as [[e|s] st']; cbn [fst snd] in *;
        [|discriminate].
      injection E as -> _. destruct (refusal_cases c) as [->|[->| ->]]; discriminate.
  - intros Hc. rewrite book_summary_run by assumption.
    destruct (int32 id) eqn:Hi; [|left; split; reflexivity].
    destruct (reviews_of id st) as [|r l] eqn:Er.
    + right. left. split; reflexivity.
    + right. right. split; [apply Hpos|]. split; [apply truediv_never_by_zero|].
      intros R. apply reachable_wf in R.
      destruct (average_of_reviews st id R) as (q & Hq & _); [congruence|].
      rewrite Er in Hq. exists q. exact Hq.
Qed.

Lemma book_summary_division_guarded_witness :
  0 < len (reviews_of 1 library) /\
  exists q, truediv (sum (map Review.rating (reviews_of 1 library)))
                    (len (reviews_of 1 library)) = inr q.
Proof.
  destruct (book_summary_division_guarded library admin 1) as [_ H].
  destruct (H eq_refl) as [[E _]|[[E _]|(P & _ & Q)]];
    [discriminate E | discriminate E |].
  split; [exact P | exact (Q reachable_library)].
Defined.

(** C3, as stated, fails: for ratings 5, 3, 3 the mean is 11/3, and what
    [book_summary] returns is the double next to it,
    3.6666666666666665; and for a key beyond int4, which no review carries,
    the answer is not the 404 but the driver's error. *)
Lemma book_summary_mean_counterexample :
  map Review.rating (reviews_of 1 library3) = [5; 3; 3] /\
  run (book_summary 1 admin) library3 =
    (inr {| average_rating := Qmake 8256599316845909 2251799813685248;
            summary := "Great Fair Dull" |}, library3) /\
  ~ Qeq (Qmake 8256599316845909 2251799813685248) (mean [5; 3; 3]) /\
  reviews_of 2147483648 library3 = [] /\
  run (book_summary 2147483648 admin) library3 = (inl DBAPIError, library3).
Proof.
  split; [reflexivity|]. split; [reflexivity|]. split; [|split; reflexivity].
  unfold Qeq, mean. cbn. lia.
Qed.

(** C3, amended.  For a key within int4, [book_summary] answers 404 exactly
    when no review carries the book's key, whether or not the book exists; a
    key beyond int4 is refused by the driver.  Otherwise the summary is the
    reviews' texts, in listing order, with one space between neighbours, and
    the average is the double nearest to the mean of the ratings: a fraction
    over [2 ^ 52], off from the mean by at most one part in [2 ^ 53], and the
    mean itself when that is a fraction over [2 ^ 50], as every whole number
    is. *)
Theorem book_summary_mean_and_texts st c id :
  reachable st -> authorized c = true ->
  (int32 id = false -> run (book_summary id c) st = (inl DBAPIError, st)) /\
  (int32 id = true ->
   (reviews_of id st = [] <->
    run (book_summary id c) st =
      (inl (NotFound "No reviews found for this book"), st)) /\
   (book_exists id st = false ->
    run (book_summary id c) st =
      (inl (NotFound "No reviews found for this book"), st)) /\
   (reviews_of id st <> [] ->
    map Review.review_text (reviews_of id st) = map Some (map text_of (reviews_of id st)) /\
    exists avg,
      run (book_summary id c) st =
        (inr {| average_rating := avg;
                summary := String.concat " " (map text_of (reviews_of id st)) |}, st) /\
      dyadic 52 avg /\
      (Qabs (avg - mean (map Review.rating (reviews_of id st)))
       <= mean (map Review.rating (reviews_of id st)) * Qmake 1 (Z.to_pos (2 ^ 53)))%Q /\
      (dyadic 50 (mean (map Review.rating (reviews_of id st))) ->
       Qeq avg (mean (map Review.rating (reviews_of id st)))))).
Proof.
  intros R Hc. apply reachable_wf in R. split.
  { intros Hi. rewrite book_summary_run by assumption. rewrite Hi. reflexivity. }
  intros Hi.
  assert (Hnone : reviews_of id st = [] ->
     run (book_summary id c) st =
       (inl (NotFound "No reviews found for this book"), st)).
  { intros E. rewrite book_summary_run by assumption. rewrite Hi, E. reflexivity. }
  split; [|split].
  - split; [exact Hnone|].
    intros E. destruct (reviews_of id st) as [|r l] eqn:Er; [reflexivity|].
    destruct (book_summary_ok st c id R Hc Hi) as (avg & Hs & _); [congruence|].
    rewrite Hs in E. discriminate.
  - intros Hex. apply Hnone, reviews_of_orphan_free; assumption.
  - intros Hne.
    assert (Ht : Forall (fun r => Review.review_text r <> None) (reviews_of id st)).
    { pose proof (wf_text st R) as T. rewrite Forall_forall in *.
      intros r Hr. apply filter_In in Hr. apply T, Hr. }
    destruct (join_concat " " _ Ht) as [Hm _]. split; [exact Hm|].
    destruct (book_summary_ok st c id R Hc Hi Hne) as (avg & Hs & Ha).
    destruct (average_of_reviews st id R Hne) as (avg' & Ha' & _ & _ & Hd & He & Hx).
    rewrite Ha in Ha'. injection Ha' as <-.
    exists avg. repeat split; assumption.
Qed.

Lemma book_summary_mean_and_texts_witness :
  exists avg,
    run (book_summary 1 admin) library =
      (inr {| average_rating := avg; summary := "Great Fair" |}, library) /\
    Qeq avg 4.
Proof.
  destruct (book_summary_mean_and_texts library admin 1 reachable_library eq_refl)
    as [_ H].
  destruct (H eq_refl) as (_ & _ & K).
  destruct K as (_ & avg & E & _ & _ & X); [discriminate|].
  exists avg. split; [exact E|].
  rewrite X; [reflexivity|]. exists (4 * 2 ^ 50). reflexivity.
Defined.

(** The specification's scenario: ratings 5, 3, 4 average to 4.0. *)
Example truediv_5_3_4 : truediv (sum [5; 3; 4]) (len [5; 3; 4]) = inr 4%Q.
Proof. reflexivity. Qed.

(** ** Validation of review payloads *)

(** C9, as stated, fails: a body with [user_id] and [rating] but without
    [review_text] does not pass validation. *)
Lemma review_text_omitted_counterexample :
  member "user_id" textless = Some (JInt 7) /\
  member "rating" textless = Some (JInt 5) /\
  member "review_text" textless = None /\
  ReviewCreate.validate strict textless = inl RequestValidationError /\
  ~ (exists review, ReviewCreate.validate strict textless = inr review).
Proof.
  repeat split. intros [review H]. discriminate H.
Qed.

(** C9, amended.  [review_text] is a required field of a review payload: a
    body that leaves it out is refused by validation, whatever else it
    carries and however the values present are converted. *)
Theorem review_create_requires_text co body :
  member "review_text" body = None ->
  ReviewCreate.validate co body = inl RequestValidationError.
Proof.
  intros H. unfold ReviewCreate.validate.
  destruct (required (as_int co) "user_id" body) as [e|u] eqn:Eu.
  - unfold required in Eu. destruct (member "user_id" body) as [[]|];
      try (destruct (as_int co _)); congruence.
  - unfold required at 1. rewrite H. reflexivity.
Qed.

Lemma review_create_requires_text_witness :
  ReviewCreate.validate strict textless = inl RequestValidationError.
Proof.
  apply (review_create_requires_text strict textless). reflexivity.
Defined.

(** ** Books: create, read, update *)

Lemma create_book_ok st c book :
  wf st -> authorized c = true ->
  storable_book book = true -> books_id_seq st <= INT32_MAX ->
  let row := Book.mk (Some (books_id_seq st)) (BookCreate.title book)
                     (BookCreate.author book) (BookCreate.genre book)
                     (BookCreate.year_published book) (BookCreate.summary book) in
  let st' := mkStore (books st ++ [row]) (reviews st)
                     (books_id_seq st + 1) (reviews_id_seq st) in
  run (create_book book c) st = (inr row, st') /\ find_book (books_id_seq st) st' = [row].
Proof.
  intros W Hc Hs Hq row st'. rewrite create_book_run by assumption.
  destruct (insert_book_ok (Book_init book) st W Hs Hq) as (E & F & _).
  cbv zeta in E, F.
  cbn [Book_init Book.title Book.author Book.genre Book.year_published Book.summary] in E, F.
  rewrite E. cbn [Book.id]. rewrite F.
  rewrite int32_between by (pose proof (wf_books_seq st W); lia).
  split; [reflexivity | exact F].
Qed.

Lemma create_book_unstorable st c book :
  authorized c = true -> storable_book book = false ->
  run (create_book book c) st = (inl DBAPIError, st).
Proof.
  intros Hc Hs. rewrite create_book_run by assumption.
  unfold insert_book. unfold storable_book in Hs. rewrite Hs. cbn [negb].
  rewrite rollback_same. reflexivity.
Qed.

(** C4, as stated, fails: a payload that passes validation with a year beyond
    int4 is refused by the driver, and no book is created to read back. *)
Lemma create_book_counterexample :
  BookCreate.validate strict far_future_body = inr far_future /\
  run (create_book far_future admin) empty_store = (inl DBAPIError, empty_store).
Proof. split; reflexivity. Qed.

(** C4, amended.  For a payload the store can hold (the year within int4, no
    NUL in a text) and while the books sequence is not used up, creating a
    book and reading it back under the key the store assigned gives the
    payload's five fields and that key, nothing else.  A payload the store
    cannot hold is refused with the driver's error and nothing is stored. *)
Theorem create_book_then_read_book st c book :
  reachable st -> authorized c = true ->
  (storable_book book = true -> books_id_seq st <= INT32_MAX ->
   exists n st',
     let created := Book.mk (Some n) (BookCreate.title book) (BookCreate.author book)
                            (BookCreate.genre book) (BookCreate.year_published book)
                            (BookCreate.summary book) in
     book_exists n st = false /\
     run (create_book book c) st = (inr created, st') /\
     run (read_book n c) st' = (inr created, st')) /\
  (storable_book book = false ->
   run (create_book book c) st = (inl DBAPIError, st)).
Proof.
  intros R Hc. apply reachable_wf in R. split.
  - intros Hs Hq. destruct (create_book_ok st c book R Hc Hs Hq) as [E F].
    eexists. eexists. cbv zeta. split; [|split; [exact E|]].
    + apply (below_not_exists Book.id), R.
    + rewrite read_book_run by assumption. rewrite F.
      rewrite int32_between by (pose proof (wf_books_seq st R); lia). reflexivity.
  - apply create_book_unstorable, Hc.
Qed.

Lemma create_book_then_read_book_witness :
  exists n st',
    run (create_book dune admin) library =
      (inr (Book.mk (Some n) "Dune" "Herbert" (Some "SF") (Some 1965) None), st') /\
    run (read_book n admin) st' =
      (inr (Book.mk (Some n) "Dune" "Herbert" (Some "SF") (Some 1965) None), st').
Proof.
  destruct (create_book_then_read_book library admin dune reachable_library eq_refl)
    as [H _].
  destruct H as (n & st' & _ & E & F); [reflexivity | vm_compute; discriminate |].
  exists n, st'. split; assumption.
Defined.

Lemma opt_string_eqb_eq a b : opt_string_eqb a b = true -> a = b.
Proof.
  destruct a, b; cbn; try discriminate; [|reflexivity].
  intros H. apply String.eqb_eq in H. congruence.
Qed.

Lemma opt_Z_eqb_eq a b : opt_Z_eqb a b = true -> a = b.
Proof.
  destruct a, b; cbn; try discriminate; [|reflexivity].
  intros H. apply Z.eqb_eq in H. congruence.
Qed.

Lemma unchanged_eq loaded b :
  changed loaded b = false -> Book.id loaded = Book.id b -> loaded = b.
Proof.
  unfold changed, title_changed, author_changed, genre_changed,
    year_published_changed, summary_changed.
  rewrite !orb_false_iff, !negb_false_iff. intros ((((Ht & Ha) & Hg) & Hy) & Hs) Hi.
  apply String.eqb_eq in Ht, Ha. apply opt_string_eqb_eq in Hg, Hs.
  apply opt_Z_eqb_eq in Hy. destruct loaded, b; cbn in *. congruence.
Qed.

Lemma storable_update_params loaded b book :
  storable_book book = true -> update_params_ok loaded (setattrs b book) = true.
Proof.
  unfold storable_book, book_params_ok, Book_init.
  cbn [Book.title Book.author Book.genre Book.year_published Book.summary].
  rewrite !andb_true_iff, !negb_true_iff.
  intros ((((Hy & Ht) & Ha) & Hg) & Hs).
  unfold update_params_ok, setattrs.
  cbn [Book.title Book.author Book.genre Book.year_published Book.summary].
  rewrite Hy, Ht, Ha, Hg, Hs. cbn [negb]. rewrite !andb_false_r. reflexivity.
Qed.

Lemma update_book_ok st c id book b :
  wf st -> authorized c = true -> find_book id st = [b] ->
  storable_book book = true ->
  let updated := Book.mk (Some id) (BookCreate.title book) (BookCreate.author book)
                         (BookCreate.genre book) (BookCreate.year_published book)
                         (BookCreate.summary book) in
  exists st',
    run (update_book id book c) st = (inr updated, st') /\
    find_book id st' = [updated] /\
    reviews st' = reviews st /\
    (changed b updated = true ->
     st' = mkStore (filter (fun x => negb (col_eqb (Book.id x) id)) (books st) ++ [updated])
                   (reviews st) (books_id_seq st) (reviews_id_seq st)) /\
    (changed b updated = false -> st' = st).
Proof.
  intros W Hc E Hs updated.
  assert (Hb : Book.id b = Some id) by (eapply find_book_id; exact E).
  assert (Hex : book_exists id st = true) by (apply book_exists_find; congruence).
  pose proof (book_exists_int32 id st W Hex) as Hi.
  assert (Hu : setattrs b book = updated) by (unfold setattrs; rewrite Hb; reflexivity).
  rewrite update_book_run by assumption. rewrite Hi, E, Hu.
  unfold update_book_row.
  replace (update_params_ok b updated) with true
    by (rewrite <- Hu; symmetry; apply storable_update_params, Hs).
  cbn [negb Book.id]. subst updated. cbn [Book.id]. rewrite Hex.
  destruct (changed b _) eqn:Ch; cbn [negb].
  - assert (F : find_book id
                 (mkStore (filter (fun x => negb (col_eqb (Book.id x) id)) (books st) ++
                           [Book.mk (Some id) (BookCreate.title book) (BookCreate.author book)
                                    (BookCreate.genre book) (BookCreate.year_published book)
                                    (BookCreate.summary book)])
                          (reviews st) (books_id_seq st) (reviews_id_seq st)) =
               [Book.mk (Some id) (BookCreate.title book) (BookCreate.author book)
                        (BookCreate.genre book) (BookCreate.year_published book)
                        (BookCreate.summary book)]).
    { unfold find_book. cbn [books]. rewrite filter_app, filter_negb_filter.
      cbn. rewrite Z.eqb_refl. reflexivity. }
    eexists. split; [rewrite F; reflexivity|].
    split; [exact F|]. split; [reflexivity|]. split; [reflexivity | discriminate].
  - assert (Eb : b = Book.mk (Some id) (BookCreate.title book) (BookCreate.author book)
                             (BookCreate.genre book) (BookCreate.year_published book)
                             (BookCreate.summary book))
      by (apply unchanged_eq; [exact Ch | exact Hb]).
    exists st. rewrite E, <- Eb.
    split; [reflexivity|]. split; [reflexivity|]. split; [reflexivity|].
    split; [discriminate | reflexivity].
Qed.

Lemma optional_absent {A} (f : json -> option A) key body :
  member key body = None -> optional f key body = inr None.
Proof. intros H. unfold optional. rewrite H. reflexivity. Qed.

Lemma validate_book_absent co body book :
  BookCreate.validate co body = inr book ->
  (member "genre" body = None -> BookCreate.genre book = None) /\
  (member "year_published" body = None -> BookCreate.year_published book = None) /\
  (member "summary" body = None -> BookCreate.summary book = None).
Proof.
  unfold BookCreate.validate. intros H.
  destruct (required _ "title" body); [discriminate|].
  destruct (required _ "author" body); [discriminate|].
  destruct (optional _ "genre" body) as [|g] eqn:Eg; [discriminate|].
  destruct (optional _ "year_published" body) as [|y] eqn:Ey; [discriminate|].
  destruct (optional _ "summary" body) as [|sm] eqn:Es; [discriminate|].
  inversion H; subst; cbn. repeat split; intros X.
  - rewrite (optional_absent _ _ _ X) in Eg. congruence.
  - rewrite (optional_absent _ _ _ X) in Ey. congruence.
  - rewrite (optional_absent _ _ _ X) in Es. congruence.
Qed.

(** C5, as stated, fails: for a key beyond int4 no book exists, yet the
    update is not answered 404: the driver refuses the lookup.  And a book
    that exists is not updated to a year beyond int4: the driver refuses the
    UPDATE and the row stays as it was. *)
Lemma update_book_counterexample :
  book_exists 2147483648 library = false /\
  run (update_book 2147483648 dune admin) library = (inl DBAPIError, library) /\
  book_exists 1 library = true /\
  BookCreate.validate strict far_future_body = inr far_future /\
  run (update_book 1 far_future admin) library = (inl DBAPIError, library).
Proof. repeat split. Qed.

(** C5, amended.  Updating a book that does not exist is a 404 for a key
    within int4, and the driver's error beyond.  For a book that exists and a
    payload the store can hold, every field of the row takes the payload's
    value: an optional field the request body left out is stored as None
    whatever it held before.  The new record is returned, it is what the
    store then holds under that key, and no other book and no review is
    touched. *)
Theorem update_book_replaces_every_field st c id co body book :
  reachable st -> authorized c = true -> BookCreate.validate co body = inr book ->
  (int32 id = false -> run (update_book id book c) st = (inl DBAPIError, st)) /\
  (int32 id = true -> book_exists id st = false ->
   run (update_book id book c) st = (inl (NotFound "Book not found"), st)) /\
  (book_exists id st = true -> storable_book book = true ->
   let updated := Book.mk (Some id) (BookCreate.title book) (BookCreate.author book)
                          (BookCreate.genre book) (BookCreate.year_published book)
                          (BookCreate.summary book) in
   exists st',
     run (update_book id book c) st = (inr updated, st') /\
     run (read_book id c) st' = (inr updated, st') /\
     (forall k, k <> id -> find_book k st' = find_book k st) /\
     reviews st' = reviews st) /\
  (member "genre" body = None -> BookCreate.genre book = None) /\
  (member "year_published" body = None -> BookCreate.year_published book = None) /\
  (member "summary" body = None -> BookCreate.summary book = None).
Proof.
  intros R Hc Hv. apply reachable_wf in R.
  split; [|split; [|split; [|exact (validate_book_absent co body book Hv)]]].
  - intros Hi. rewrite update_book_run by assumption. rewrite Hi. reflexivity.
  - intros Hi Hex. rewrite update_book_run by assumption.
    rewrite Hi, (find_book_missing id st Hex). reflexivity.
  - intros Hex Hs updated.
    destruct (find_book_exists id st R Hex) as [b E].
    destruct (update_book_ok st c id book b R Hc E Hs) as (st' & Hrun & F & Hrev & Hch & Hun).
    exists st'. split; [exact Hrun|]. split; [|split; [|exact Hrev]].
    + rewrite read_book_run by assumption.
      rewrite (book_exists_int32 id st R Hex), F. reflexivity.
    + intros k Hk.
      destruct (changed b (Book.mk (Some id) (BookCreate.title book)
                  (BookCreate.author book) (BookCreate.genre book)
                  (BookCreate.year_published book) (BookCreate.summary book))) eqn:Ch.
      * rewrite (Hch eq_refl). unfold find_book. cbn [books].
        rewrite filter_app. cbn.
        destruct (Z.eqb_spec id k); [congruence|]. rewrite app_nil_r.
        apply filter_filter_implied. intros x Hx. apply col_eqb_true in Hx.
        rewrite Hx. cbn. apply negb_true_iff, Z.eqb_neq. exact Hk.
      * rewrite (Hun eq_refl). reflexivity.
Qed.

Lemma update_book_replaces_every_field_witness :
  find_book 1 library = [Book.mk (Some 1) "Dune" "Herbert" (Some "SF") (Some 1965) None] /\
  exists st',
    run (update_book 1 (BookCreate.mk "Dune Messiah" "Herbert" None None None) admin) library =
      (inr (Book.mk (Some 1) "Dune Messiah" "Herbert" None None None), st').
Proof.
  split; [reflexivity|].
  destruct (update_book_replaces_every_field library admin 1 strict dune_bare
              (BookCreate.mk "Dune Messiah" "Herbert" None None None)
              reachable_library eq_refl eq_refl) as (_ & _ & H & _).
  destruct (H eq_refl eq_refl) as (st' & E & _).
  exists st'. exact E.
Defined.

(** ** Listing books *)

Lemma ascending_skipn n keys : ascending keys -> ascending (skipn n keys).
Proof.
  unfold ascending. revert keys.
  induction n as [|n IH]; intros [|k t] H; cbn; auto.
  inversion H; subst. auto.
Qed.

Lemma ascending_firstn n keys : ascending keys -> ascending (firstn n keys).
Proof.
  unfold ascending. revert keys.
  induction n as [|n IH]; intros [|k t] H; cbn; try constructor.
  - inversion H; subst. auto.
  - inversion H as [|? ? _ Hk]; subst.
    rewrite Forall_forall in *. intros x Hx. apply Hk.
    rewrite <- (firstn_skipn n t). apply in_or_app. left. exact Hx.
Qed.

Lemma nodup_skipn {A} n (l : list A) : NoDup l -> NoDup (skipn n l).
Proof.
  revert l. induction n as [|n IH]; intros [|x t] H; cbn; auto.
  inversion H; subst. auto.
Qed.

Lemma nodup_firstn {A} n (l : list A) : NoDup l -> NoDup (firstn n l).
Proof.
  revert l. induction n as [|n IH]; intros [|x t] H; cbn; try constructor.
  - inversion H as [|? ? Hx _]; subst. intros Hin. apply Hx.
    rewrite <- (firstn_skipn n t). apply in_or_app. left. exact Hin.
  - inversion H; subst. auto.
Qed.

Lemma never_updated_reachable st : never_updated st -> reachable st.
Proof. induction 1; constructor; assumption. Qed.

(** What a request other than an update does to the books table: nothing, a
    new row behind the others, or the removal of the rows of one key. *)
Lemma serve_books_cases r c st :
  is_update r = false ->
  books (serve r c st) = books st \/
  (exists row, Book.id row = Some (books_id_seq st) /\
               books (serve r c st) = (books st ++ [row])%list) \/
  (exists n, books (serve r c st) =
             filter (fun x => negb (col_eqb (Book.id x) n)) (books st)).
Proof.
  intros Hr. destruct (authorized c) eqn:Hc; [|rewrite serve_refused; auto].
  rewrite serve_unfold. destruct r; try discriminate Hr.
  - rewrite create_book_run by assumption. unfold insert_book.
    destruct (book_params_ok _); cbn [negb]; [|left; reflexivity].
    destruct (INT32_MAX <? books_id_seq st); [left; reflexivity|].
    destruct (book_exists _ _); [left; reflexivity|]. cbn [Book.id].
    right. left.
    exists (Book.mk (Some (books_id_seq st)) (BookCreate.title book) (BookCreate.author book)
                    (BookCreate.genre book) (BookCreate.year_published book)
                    (BookCreate.summary book)).
    split; [reflexivity|].
    destruct (int32 _); [|reflexivity].
    match goal with |- context [find_book ?k ?s] => destruct (find_book k s) end;
      reflexivity.
  - rewrite read_books_run by assumption. left. reflexivity.
  - rewrite read_book_run by assumption. left. destruct (int32 id); [|reflexivity].
    destruct (find_book id st) as [|b [|b' l]]; reflexivity.
  - rewrite delete_book_run by assumption. destruct (int32 id); [|left; reflexivity].
    destruct (find_book id st) as [|b [|b' l]]; try (left; reflexivity).
    unfold delete_book_row. destruct (Book.id b) as [n|]; [|left; reflexivity].
    right. right. exists n. reflexivity.
  - rewrite create_review_run by assumption. left.
    destruct (int32 id); [|reflexivity].
    destruct (find_book id st) as [|b [|b' l]]; try reflexivity.
    destruct (insert_review_cases (Review_init review id) st)
      as [[E _]|[(E & _)|(row & E & Hrow & _)]]; rewrite E; [reflexivity | reflexivity |].
    rewrite Hrow. cbn [Review.id].
    destruct (int32 _); [|reflexivity].
    match goal with |- context [find_review ?k ?s] => destruct (find_review k s) end;
      reflexivity.
  - rewrite read_reviews_run by assumption. left. destruct (int32 id); reflexivity.
  - rewrite book_summary_run by assumption. left. destruct (int32 id); [|reflexivity].
    destruct (reviews_of id st); [reflexivity|].
    destruct (truediv _ _); [reflexivity|].
    destruct (join _ _); reflexivity.
Qed.

(** As long as no book was updated, the books sit in the table in the order
    of their keys. *)
Lemma never_updated_ascending st :
  never_updated st -> ascending (map Book.id (books st)).
Proof.
  induction 1 as [|r c st N IH Hr]; [constructor|].
  pose proof (reachable_wf st (never_updated_reachable st N)) as W.
  destruct (serve_books_cases r c st Hr) as [->|[(row & Hid & ->)|[n ->]]].
  - exact IH.
  - apply (ascending_snoc Book.id (books_id_seq st)); [exact IH | apply W | exact Hid].
  - apply (ascending_filter Book.id), IH.
Qed.

Lemma never_updated_shelf : never_updated shelf.
Proof.
  unfold shelf. repeat (apply never_updated_serve; [|reflexivity]).
  apply never_updated_init.
Qed.

Lemma window_ok o l :
  0 <= o <= INT32_MAX -> 0 <= l <= INT32_MAX ->
  int32 l && int32 o && (0 <=? o) && (0 <=? l) = true.
Proof.
  intros Ho Hl. rewrite !andb_true_iff, !Z.leb_le, !int32_iff. arith.
Qed.

Lemma window_refused o l :
  ~ (0 <= o <= INT32_MAX /\ 0 <= l <= INT32_MAX) ->
  int32 l && int32 o && (0 <=? o) && (0 <=? l) = false.
Proof.
  intros H. destruct (_ && _) eqn:E; [|reflexivity]. exfalso. apply H.
  rewrite !andb_true_iff, !Z.leb_le, !int32_iff in E. arith.
Qed.

(** C6, as stated, fails: once a book has been updated the list is no longer
    in the order of the keys; and a negative [skip] is not served at all. *)
Lemma read_books_order_counterexample :
  (exists page,
     run (read_books None None admin) shelf_retitled = (inr page, shelf_retitled) /\
     map Book.id page = [Some 2; Some 3; Some 1] /\
     ~ ascending (map Book.id page)) /\
  run (read_books (Some (-1)) None admin) shelf = (inl DBAPIError, shelf).
Proof.
  split; [|reflexivity].
  eexists. split; [reflexivity|]. split; [reflexivity|].
  cbn. intros H. inversion H as [|? ? _ F]; subst.
  inversion F as [|? ? _ F']; subst. inversion F' as [|? ? L _]; subst.
  cbn in L. lia.
Qed.

(** C6, amended.  [read_books] returns the rows of the books table as the
    store lists them (the query has no ORDER BY), from position [skip] on and
    [limit] of them at most, with 0 and 10 standing in for a missing [skip]
    or [limit].  Every [skip] and [limit] from 0 to the largest int4 is
    served, the handler enforcing no bound of its own on [limit]; a negative
    one is refused by the store.  No book is listed twice, and as long as no
    book has been updated the list is ascending in [id]. *)
Theorem read_books_pages st c skip limit :
  reachable st -> authorized c = true ->
  let skip' := default 0 skip in
  let limit' := default 10 limit in
  (0 <= skip' <= INT32_MAX -> 0 <= limit' <= INT32_MAX ->
   exists page,
     run (read_books skip limit c) st = (inr page, st) /\
     page = firstn (Z.to_nat limit') (skipn (Z.to_nat skip') (books st)) /\
     len page = Z.min limit' (Z.max 0 (len (books st) - skip')) /\
     NoDup (map Book.id page) /\
     (never_updated st -> ascending (map Book.id page))) /\
  (skip' < 0 \/ limit' < 0 ->
   run (read_books skip limit c) st = (inl DBAPIError, st)) /\
  run (read_books None None c) st = run (read_books (Some 0) (Some 10) c) st.
Proof.
  intros R Hc skip' limit'. apply reachable_wf in R.
  split; [|split].
  - intros Hs Hl. eexists. split; [|split; [reflexivity|]].
    + rewrite read_books_run by assumption. rewrite fetch_window.
      fold skip' limit'. rewrite window_ok by assumption. reflexivity.
    + split; [|split].
      * unfold len. rewrite length_firstn, length_skipn. lia.
      * rewrite <- firstn_map, <- skipn_map. apply nodup_firstn, nodup_skipn, R.
      * intros N. rewrite <- firstn_map, <- skipn_map.
        apply ascending_firstn, ascending_skipn, never_updated_ascending, N.
  - intros H. rewrite read_books_run by assumption. rewrite fetch_window.
    fold skip' limit'. rewrite window_refused by lia. reflexivity.
  - rewrite !read_books_run by assumption. reflexivity.
Qed.

Lemma read_books_pages_witness :
  run (read_books (Some 1) (Some 1) admin) shelf =
    (inr [Book.mk (Some 2) "Emma" "Austen" None (Some 1815) None], shelf) /\
  ascending (map Book.id (firstn 2 (skipn 1 (books shelf)))).
Proof.
  split.
  - destruct (read_books_pages shelf admin (Some 1) (Some 1) reachable_shelf eq_refl)
      as (H & _).
    destruct H as (page & E & P & _); [vm_compute; split; discriminate ..|].
    rewrite E, P. reflexivity.
  - destruct (read_books_pages shelf admin (Some 1) (Some 2) reachable_shelf eq_refl)
      as (H & _).
    destruct H as (page & _ & P & _ & _ & A); [vm_compute; split; discriminate ..|].
    rewrite P in A. exact (A never_updated_shelf).
Defined.

(** ** Reviews of a book *)

Lemma create_review_ok st c id review :
  wf st -> authorized c = true -> book_exists id st = true ->
  1 <= ReviewCreate.rating review <= 5 ->
  storable_review review = true -> reviews_id_seq st <= INT32_MAX ->
  let row := Review.mk (Some (reviews_id_seq st)) id (ReviewCreate.user_id review)
                       (Some (ReviewCreate.review_text review))
                       (ReviewCreate.rating review) in
  let st' := mkStore (books st) (reviews st ++ [row])
                     (books_id_seq st) (reviews_id_seq st + 1) in
  run (create_review id review c) st = (inr row, st').
Proof.
  intros W Hc Hex Hr Hs Hq row st'.
  rewrite create_review_run by assumption.
  pose proof (book_exists_int32 id st W Hex) as Hi. rewrite Hi.
  destruct (find_book_exists id st W Hex) as [b ->].
  destruct (insert_review_ok (Review_init review id) st W) as (E & F & _).
  - rewrite storable_review_params, Hi, Hs. reflexivity.
  - exact Hq.
  - apply rating_check_iff. exact Hr.
  - exact Hex.
  - discriminate.
  - cbv zeta in E, F.
    cbn [Review_init Review.book_id Review.user_id Review.review_text Review.rating] in E, F.
    rewrite E. cbn [Review.id]. rewrite F.
    rewrite int32_between by (pose proof (wf_reviews_seq st W); lia). reflexivity.
Qed.

Lemma read_reviews_trace st c id :
  authorized c = true -> trace (read_reviews id c) st = [Execute].
Proof.
  intros Hc. enter read_reviews Hc. session. rewrite fetch_reviews_of.
  destruct (int32 id); reflexivity.
Qed.

(** C8, as stated, fails: for a key beyond int4 there is no review, yet the
    answer is the driver's error and not the empty list. *)
Lemma read_reviews_counterexample :
  reviews_of 2147483648 library = [] /\
  book_exists 2147483648 library = false /\
  run (read_reviews 2147483648 admin) library = (inl DBAPIError, library).
Proof. repeat split. Qed.

(** C8, amended.  For a key within int4, [read_reviews] answers with exactly
    the reviews whose [book_id] is the one asked for, in table order:
    ascending in their keys, a new review of the book coming last.  It never
    looks the book up: with no such review the answer is the empty list, and
    so it is for a book that does not exist.  A key beyond int4 is refused by
    the driver. *)
Theorem read_reviews_lists_by_book st c id :
  reachable st -> authorized c = true ->
  (int32 id = false -> run (read_reviews id c) st = (inl DBAPIError, st)) /\
  (int32 id = true ->
   run (read_reviews id c) st = (inr (reviews_of id st), st) /\
   trace (read_reviews id c) st = [Execute] /\
   (forall r, In r (reviews_of id st) <-> In r (reviews st) /\ Review.book_id r = id) /\
   ascending (map Review.id (reviews_of id st)) /\
   (book_exists id st = false -> run (read_reviews id c) st = (inr [], st)) /\
   (forall review,
      book_exists id st = true -> 1 <= ReviewCreate.rating review <= 5 ->
      storable_review review = true -> reviews_id_seq st <= INT32_MAX ->
      exists row st',
        run (create_review id review c) st = (inr row, st') /\
        run (read_reviews id c) st' = (inr (reviews_of id st ++ [row])%list, st'))).
Proof.
  intros R Hc. apply reachable_wf in R. split.
  - intros Hi. rewrite read_reviews_run by assumption. rewrite Hi. reflexivity.
  - intros Hi. split; [|split; [|split; [|split; [|split]]]].
    + rewrite read_reviews_run by assumption. rewrite Hi. reflexivity.
    + apply read_reviews_trace, Hc.
    + intros r. unfold reviews_of. rewrite filter_In, Z.eqb_eq. tauto.
    + apply (ascending_filter Review.id), R.
    + intros Hex. rewrite read_reviews_run by assumption.
      rewrite Hi, (reviews_of_orphan_free id st R Hex). reflexivity.
    + intros review Hex Hr Hs Hq.
      pose proof (create_review_ok st c id review R Hc Hex Hr Hs Hq) as E. cbv zeta in E.
      eexists. eexists. split; [exact E|].
      rewrite read_reviews_run by assumption. rewrite Hi.
      unfold reviews_of. cbn [reviews]. rewrite filter_app. cbn.
      rewrite Z.eqb_refl. reflexivity.
Qed.

Lemma read_reviews_lists_by_book_witness :
  run (read_reviews 1 admin) library = (inr (reviews_of 1 library), library) /\
  run (read_reviews 2 admin) library = (inr [], library) /\
  exists row st',
    run (create_review 1 dull admin) library = (inr row, st') /\
    run (read_reviews 1 admin) st' = (inr (reviews_of 1 library ++ [row])%list, st').
Proof.
  destruct (read_reviews_lists_by_book library admin 1 reachable_library eq_refl)
    as (_ & H1).
  destruct (H1 eq_refl) as (E1 & _ & _ & _ & _ & C).
  destruct (read_reviews_lists_by_book library admin 2 reachable_library eq_refl)
    as (_ & H2).
  destruct (H2 eq_refl) as (_ & _ & _ & _ & E2 & _).
  split; [exact E1|]. split; [apply E2; reflexivity|].
  apply C; [reflexivity | cbn; lia | reflexivity | vm_compute; discriminate].
Defined.

(** * Further properties *)

(** ** The credential check *)

(** X1.  [authenticate_user] returns True for the pair admin/password and for
    no other.  Any other pair makes it raise: the TypeError of
    [compare_digest] when the user name has a non-ASCII character; failing
    that, passlib's PasswordValueError when the password is longer than 4096
    characters or holds a NUL; and otherwise, and only then, the 401 with the
    Basic challenge.  Either way the session is left as it was found. *)
Theorem authenticate_user_accepts_one_pair c s :
  (c = mkCredentials "admin" "password" -> authenticate_user c s = (inr true, s)) /\
  (c <> mkCredentials "admin" "password" ->
   authenticate_user c s = (inl (refusal c), s)) /\
  (refusal c = HTTPException 401 "Incorrect username or password"
                             [("WWW-Authenticate", "Basic")] <->
   all_ascii (username c) = true /\
   Z.of_nat (String.length (password c)) <= MAX_PASSWORD_SIZE /\
   has_nul (password c) = false) /\
  (all_ascii (username c) = false -> refusal c = TypeError) /\
  snd (authenticate_user c s) = s.
Proof.
  assert (Hr : refusal c = Unauthorized <->
               all_ascii (username c) = true /\
               Z.of_nat (String.length (password c)) <= MAX_PASSWORD_SIZE /\
               has_nul (password c) = false).
  { unfold refusal. destruct (all_ascii (username c)); cbn [negb].
    - destruct (Z.ltb_spec MAX_PASSWORD_SIZE (Z.of_nat (String.length (password c))));
        cbn [orb].
      + split; [discriminate | intros (_ & H' & _); lia].
      + destruct (has_nul (password c)).
        * split; [discriminate | intros (_ & _ & H'); discriminate].
        * split; [intros _; repeat split; auto | reflexivity].
    - split; [discriminate | intros (H & _); discriminate]. }
  assert (Ht : all_ascii (username c) = false -> refusal c = TypeError).
  { intros H. unfold refusal. rewrite H. reflexivity. }
  destruct (authorized c) eqn:Hc.
  - rewrite (authenticate_user_ok c s Hc). apply authorized_iff in Hc.
    split; [reflexivity|]. split; [intros Hne; contradiction|].
    split; [exact Hr|]. split; [exact Ht | reflexivity].
  - rewrite (authenticate_user_no c s Hc).
    split; [intros E; apply authorized_iff in E; congruence|].
    split; [reflexivity|]. split; [exact Hr|]. split; [exact Ht | reflexivity].
Qed.

Lemma authenticate_user_accepts_one_pair_witness :
  authenticate_user admin (SessionLocal library) = (inr true, SessionLocal library) /\
  authenticate_user (mkCredentials "Admin" "password") (SessionLocal library) =
    (inl Unauthorized, SessionLocal library) /\
  authenticate_user nul_padded (SessionLocal library) =
    (inl PasswordValueError, SessionLocal library).
Proof.
  split; [|split].
  - apply (authenticate_user_accepts_one_pair admin (SessionLocal library)). reflexivity.
  - apply (authenticate_user_accepts_one_pair (mkCredentials "Admin" "password")
             (SessionLocal library)). discriminate.
  - apply (authenticate_user_accepts_one_pair nul_padded (SessionLocal library)).
    discriminate.
Defined.

(** ** One transaction per request *)

(** X2.  Every request awaits [db.commit()] at most once, and a request that
    did not commit leaves the store exactly as it was: nothing reaches the
    tables outside the one transaction. *)
Theorem one_commit_per_request r c st :
  (commits (trace (handle r c) st) <= 1)%nat /\
  (commits (trace (handle r c) st) = 0%nat -> serve r c st = st).
Proof.
  destruct (handler_commits r c st) as (H1 & H2 & _).
  rewrite serve_session. split; assumption.
Qed.

Lemma one_commit_per_request_witness :
  serve (POST_reviews 9 great) admin library = library.
Proof.
  apply (one_commit_per_request (POST_reviews 9 great) admin library).
  reflexivity.
Defined.

(** X3.  The four GET routes are read-only on every store, well formed or
    not, and whatever the credentials and the outcome: they never commit and
    the store after the request is the store before it. *)
Theorem get_routes_are_read_only r c st :
  is_read r = true ->
  serve r c st = st /\ commits (trace (handle r c) st) = 0%nat.
Proof.
  intros Hr. destruct (handler_commits r c st) as (_ & H2 & H3).
  rewrite serve_session. split; [apply H2, H3, Hr | apply H3, Hr].
Qed.

Lemma get_routes_are_read_only_witness :
  serve (GET_summary 1) admin library = library /\
  serve (GET_books (Some (-1)) None) admin library = library.
Proof.
  split.
  - apply (get_routes_are_read_only (GET_summary 1) admin library). reflexivity.
  - apply (get_routes_are_read_only (GET_books (Some (-1)) None) admin library).
    reflexivity.
Defined.

(** ** Requests for a book that is not there *)

Lemma missing_book_traces st c id :
  authorized c = true -> find_book id st = [] ->
  trace (read_book id c) st = [Execute] /\
  (forall book, trace (update_book id book c) st = [Execute]) /\
  trace (delete_book id c) st = [Execute] /\
  (forall review, trace (create_review id review c) st = [Execute]).
Proof.
  intros Hc E. repeat split; intros.
  - enter read_book Hc. session. rewrite fetch_by_key. fold (find_book id st).
    rewrite E. destruct (int32 id); reflexivity.
  - enter update_book Hc. session. rewrite fetch_by_key. fold (find_book id st).
    rewrite E. destruct (int32 id); reflexivity.
  - enter delete_book Hc. session. rewrite fetch_by_key. fold (find_book id st).
    rewrite E. destruct (int32 id); reflexivity.
  - enter create_review Hc. session. rewrite fetch_by_key. fold (find_book id st).
    rewrite E. destruct (int32 id); reflexivity.
Qed.

(** X4.  When no book has the key in the path, [read_book], [update_book],
    [delete_book] and [create_review] all fail after the one lookup, whatever
    the payload: with 404 "Book not found" for a key within int4, with the
    driver's error for a key beyond.  Nothing is committed and the store is
    unchanged. *)
Theorem missing_book_is_404 st c id :
  authorized c = true -> book_exists id st = false ->
  let answer := if int32 id then HTTPException 404 "Book not found" []
                else DBAPIError in
  (run (read_book id c) st = (inl answer, st) /\
   trace (read_book id c) st = [Execute]) /\
  (forall book,
     run (update_book id book c) st = (inl answer, st) /\
     trace (update_book id book c) st = [Execute]) /\
  (run (delete_book id c) st = (inl answer, st) /\
   trace (delete_book id c) st = [Execute]) /\
  (forall review,
     run (create_review id review c) st = (inl answer, st) /\
     trace (create_review id review c) st = [Execute]).
Proof.
  intros Hc Hex answer. pose proof (find_book_missing id st Hex) as E.
  destruct (missing_book_traces st c id Hc E) as (T1 & T2 & T3 & T4).
  subst answer. split; [|split; [|split]].
  - split; [|exact T1]. rewrite read_book_run by assumption. rewrite E.
    destruct (int32 id); reflexivity.
  - intros book. split; [|apply T2].
    rewrite update_book_run by assumption. rewrite E. destruct (int32 id); reflexivity.
  - split; [|exact T3]. rewrite delete_book_run by assumption. rewrite E.
    destruct (int32 id); reflexivity.
  - intros review. split; [|apply T4].
    rewrite create_review_run by assumption. rewrite E. destruct (int32 id); reflexivity.
Qed.

Lemma missing_book_is_404_witness :
  run (delete_book 2 admin) library = (inl (NotFound "Book not found"), library) /\
  run (create_review 2 great admin) library = (inl (NotFound "Book not found"), library) /\
  run (read_book 2147483648 admin) library = (inl DBAPIError, library).
Proof.
  destruct (missing_book_is_404 library admin 2 eq_refl eq_refl) as (_ & _ & [D _] & R).
  destruct (missing_book_is_404 library admin 2147483648 eq_refl eq_refl) as ([B _] & _).
  split; [exact D|]. split; [apply R | exact B].
Defined.

(** ** When a review is stored *)

(** X5.  On a reachable store and with the right credentials [create_review]
    succeeds exactly when the book exists, the rating lies in 1..5, the
    payload is one the store can hold (user_id within int4, no NUL in the
    text) and the reviews sequence is not used up.  The review it returns
    carries the next key of the sequence, the book's key from the path and
    the payload's three fields; it is appended to the reviews and the books
    are untouched. *)
Theorem create_review_succeeds_iff st c id review :
  reachable st -> authorized c = true ->
  ((exists row st', run (create_review id review c) st = (inr row, st')) <->
   book_exists id st = true /\ 1 <= ReviewCreate.rating review <= 5 /\
   storable_review review = true /\ reviews_id_seq st <= INT32_MAX) /\
  (forall row st',
     run (create_review id review c) st = (inr row, st') ->
     row = Review.mk (Some (reviews_id_seq st)) id (ReviewCreate.user_id review)
                     (Some (ReviewCreate.review_text review))
                     (ReviewCreate.rating review) /\
     books st' = books st /\
     reviews st' = (reviews st ++ [row])%list).
Proof.
  intros R Hc. apply reachable_wf in R.
  assert (Hnec : forall row st', run (create_review id review c) st = (inr row, st') ->
                 book_exists id st = true /\ 1 <= ReviewCreate.rating review <= 5 /\
                 storable_review review = true /\ reviews_id_seq st <= INT32_MAX).
  { intros row st' E. rewrite create_review_run in E by assumption.
    destruct (int32 id) eqn:Hi; [|discriminate].
    destruct (find_book id st) as [|b [|b' l]] eqn:F; try discriminate.
    destruct (insert_review_cases (Review_init review id) st)
      as [[X _]|[(X & _)|(row' & X & _ & Hp & Hq & Hr & Hb)]];
      rewrite X in E; try discriminate.
    rewrite storable_review_params, Hi in Hp. cbn [andb] in Hp.
    apply rating_check_iff in Hr. cbn [Review_init Review.rating Review.book_id] in Hr, Hb.
    auto. }
  split.
  - split.
    + intros (row & st' & E). exact (Hnec row st' E).
    + intros (Hex & Hr & Hs & Hq). eexists. eexists.
      exact (create_review_ok st c id review R Hc Hex Hr Hs Hq).
  - intros row st' E. destruct (Hnec row st' E) as (Hex & Hr & Hs & Hq).
    rewrite (create_review_ok st c id review R Hc Hex Hr Hs Hq) in E.
    injection E as <- <-. cbn. repeat split; reflexivity.
Qed.

Lemma create_review_succeeds_iff_witness :
  exists row st',
    run (create_review 1 great admin) library = (inr row, st') /\
    Review.id row = Some 3.
Proof.
  destruct (create_review_succeeds_iff library admin 1 great reachable_library eq_refl)
    as [[_ H] K].
  destruct H as (row & st' & E);
    [split; [reflexivity | split; [cbn; lia | split; [reflexivity | vm_compute; discriminate]]]|].
  exists row, st'. split; [exact E|].
  destruct (K row st' E) as (-> & _). reflexivity.
Defined.

(** ** Creating and deleting a book *)

(** X6.  For a payload the store can hold and while the books sequence is not
    used up, creating a book and then deleting it under the key it was given
    brings both tables back to what they were: the new row goes, no other
    book and no review is lost to the cascade. *)
Theorem create_book_then_delete_book st c book :
  reachable st -> authorized c = true ->
  storable_book book = true -> books_id_seq st <= INT32_MAX ->
  exists n created st1 st2,
    run (create_book book c) st = (inr created, st1) /\
    Book.id created = Some n /\
    run (delete_book n c) st1 = (inr [("detail", "Book deleted")], st2) /\
    books st2 = books st /\
    reviews st2 = reviews st.
Proof.
  intros R Hc Hs Hq. apply reachable_wf in R.
  destruct (create_book_ok st c book R Hc Hs Hq) as [E F]. cbv zeta in E, F.
  eexists. eexists. eexists. eexists.
  split; [exact E|]. split; [reflexivity|]. split; [|split].
  - rewrite delete_book_run by assumption. rewrite F.
    rewrite int32_between by (pose proof (wf_books_seq st R); lia). reflexivity.
  - cbn. rewrite filter_app, (filter_other_keys Book.id) by apply R.
    cbn. rewrite Z.eqb_refl. cbn. apply app_nil_r.
  - cbn. apply forallb_filter_id. apply forallb_forall. intros r Hr.
    apply negb_true_iff, Z.eqb_neq.
    pose proof (wf_no_orphan st R) as No. rewrite Forall_forall in No.
    pose proof (book_exists_below _ st R (No r Hr)). lia.
Qed.

Lemma create_book_then_delete_book_witness :
  exists n created st1 st2,
    run (create_book dune admin) library = (inr created, st1) /\
    Book.id created = Some n /\
    run (delete_book n admin) st1 = (inr [("detail", "Book deleted")], st2) /\
    books st2 = books library /\
    reviews st2 = reviews library.
Proof.
  apply (create_book_then_delete_book library admin dune reachable_library eq_refl);
    [reflexivity | vm_compute; discriminate].
Defined.

(** ** What every reachable store satisfies *)

(** X8.  In every store the service can reach, each review has a rating
    within 1..5 and a text, each row of either table has a key, and no two
    books and no two reviews share one. *)
Theorem reachable_store_invariants st :
  reachable st ->
  Forall (fun r => 1 <= Review.rating r <= 5 /\ Review.review_text r <> None)
         (reviews st) /\
  Forall (fun b => Book.id b <> None) (books st) /\
  Forall (fun r => Review.id r <> None) (reviews st) /\
  NoDup (map Book.id (books st)) /\
  NoDup (map Review.id (reviews st)).
Proof.
  intros R. apply reachable_wf in R. destruct R as [Bn Bb Bq Rs Rb Rq No Ra Tx].
  split; [|split; [|split; [|split]]].
  - rewrite Forall_forall in *. intros r Hr. split; [|apply Tx, Hr].
    apply rating_check_iff, Ra, Hr.
  - rewrite Forall_forall in *. intros b Hb E.
    specialize (Bb (Book.id b) (in_map Book.id _ _ Hb)). rewrite E in Bb. exact Bb.
  - rewrite Forall_forall in *. intros r Hr E.
    specialize (Rb (Review.id r) (in_map Review.id _ _ Hr)). rewrite E in Rb. exact Rb.
  - exact Bn.
  - apply ascending_NoDup, Rs.
Qed.

Lemma reachable_store_invariants_witness :
  NoDup (map Review.id (reviews library)).
Proof.
  apply (reachable_store_invariants library reachable_library).
Defined.

(** ** The average of a summary *)

(** X9.  Whenever [book_summary] answers with a summary on a reachable store,
    its average rating lies between 1 and 5: the rating check on the reviews
    carries over to the aggregate. *)
Theorem book_summary_average_within_bounds st c id s st' :
  reachable st ->
  run (book_summary id c) st = (inr s, st') ->
  (1 <= average_rating s)%Q /\ (average_rating s <= 5)%Q.
Proof.
  intros R E. apply reachable_wf in R.
  destruct (authorized c) eqn:Hc.
  - rewrite book_summary_run in E by assumption.
    destruct (int32 id); [|discriminate].
    destruct (reviews_of id st) as [|r l] eqn:Er; [discriminate|].
    destruct (average_of_reviews st id R) as (avg & Ha & Hlo & Hhi & _);
      [rewrite Er; discriminate|].
    rewrite Er in Ha. rewrite Ha in E.
    destruct (join _ _); [discriminate|].
    injection E as Hs Hst. subst s. cbn [average_rating]. split; assumption.
  - destruct (handle_refused (GET_summary id) c st Hc) as [E' _].
    cbn [handle] in E'. rewrite run_bind_ret, E in E'. discriminate.
Qed.

Lemma book_summary_average_within_bounds_witness :
  (1 <= 4 # 1)%Q /\ (4 # 1 <= 5)%Q.
Proof.
  apply (book_summary_average_within_bounds library admin 1
           {| average_rating := 4 # 1; summary := "Great Fair" |} library
           reachable_library).
  reflexivity.
Defined.

(** ** After a book is deleted *)

(** X10.  Deleting a book is final: once [delete_book] has gone through, the
    key names no book, and [update_book], a second [delete_book] and
    [create_review] on it answer 404 "Book not found", while [book_summary]
    answers 404 "No reviews found for this book"; none of them changes the
    store. *)
Theorem deleted_book_stays_gone st c id :
  reachable st -> authorized c = true -> book_exists id st = true ->
  exists st',
    run (delete_book id c) st = (inr [("detail", "Book deleted")], st') /\
    book_exists id st' = false /\
    (forall book,
       run (update_book id book c) st' = (inl (NotFound "Book not found"), st')) /\
    run (delete_book id c) st' = (inl (NotFound "Book not found"), st') /\
    (forall review,
       run (create_review id review c) st' = (inl (NotFound "Book not found"), st')) /\
    run (book_summary id c) st' =
      (inl (NotFound "No reviews found for this book"), st').
Proof.
  intros R Hc Hex. pose proof (reachable_wf st R) as W.
  pose proof (book_exists_int32 id st W Hex) as Hi.
  destruct (find_book_exists id st W Hex) as [b E].
  assert (Hb : Book.id b = Some id) by (eapply find_book_id; exact E).
  exists (delete_book_row b st).
  assert (F : find_book id (delete_book_row b st) = []).
  { unfold find_book, delete_book_row. rewrite Hb. cbn [books].
    apply filter_negb_filter. }
  assert (G : reviews_of id (delete_book_row b st) = []).
  { unfold reviews_of, delete_book_row. rewrite Hb. cbn [reviews].
    apply filter_negb_filter. }
  split; [rewrite delete_book_run by assumption; rewrite Hi, E; reflexivity|].
  split.
  { destruct (book_exists id (delete_book_row b st)) eqn:X; [|reflexivity].
    apply book_exists_find in X. contradiction. }
  split; [|split; [|split]].
  - intros book. rewrite update_book_run by assumption. rewrite Hi, F. reflexivity.
  - rewrite delete_book_run by assumption. rewrite Hi, F. reflexivity.
  - intros review. rewrite create_review_run by assumption. rewrite Hi, F. reflexivity.
  - rewrite book_summary_run by assumption. rewrite Hi, G. reflexivity.
Qed.

Lemma deleted_book_stays_gone_witness :
  exists st',
    run (delete_book 1 admin) library = (inr [("detail", "Book deleted")], st') /\
    run (delete_book 1 admin) st' = (inl (NotFound "Book not found"), st') /\
    run (create_review 1 great admin) st' = (inl (NotFound "Book not found"), st').
Proof.
  destruct (deleted_book_stays_gone library admin 1 reachable_library eq_refl eq_refl)
    as (st' & D & _ & _ & D' & Cr & _).
  exists st'. split; [exact D|]. split; [exact D' | apply Cr].
Defined.

(** ** A new review in the summary *)

(** X11.  A review that [create_review] stores shows up at the end of the
    book's summary: the next [book_summary] joins the earlier texts and then
    the new text, and its average is the double nearest to the mean of the
    earlier ratings together with the new one: within a relative error of
    2^-53 of that mean, and the mean itself where the mean is a multiple of
    2^-50.  The review must be one the store holds: rating in 1..5, user_id
    within int4, no NUL in the text, the sequence not used up. *)
Theorem create_review_then_book_summary st c id review :
  reachable st -> authorized c = true ->
  book_exists id st = true -> 1 <= ReviewCreate.rating review <= 5 ->
  storable_review review = true -> reviews_id_seq st <= INT32_MAX ->
  let ratings := (map Review.rating (reviews_of id st) ++ [ReviewCreate.rating review])%list in
  exists row st' avg,
    run (create_review id review c) st = (inr row, st') /\
    run (book_summary id c) st' =
      (inr {| average_rating := avg;
              summary :=
                String.concat " " (map text_of (reviews_of id st)
                                   ++ [ReviewCreate.review_text review])%list |},
       st') /\
    (Qabs (avg - mean ratings) <= mean ratings * Qmake 1 (Z.to_pos (2 ^ 53)))%Q /\
    (dyadic 50 (mean ratings) -> Qeq avg (mean ratings)).
Proof.
  intros R Hc Hex Hr Hs Hq ratings. pose proof (reachable_wf st R) as W.
  pose proof (create_review_ok st c id review W Hc Hex Hr Hs Hq) as E. cbv zeta in E.
  match type of E with run _ _ = (inr ?r, ?s) => set (row := r) in *; set (st' := s) in * end.
  assert (W' : wf st').
  { replace st' with (serve (POST_reviews id review) c st).
    - apply wf_serve, W.
    - rewrite serve_unfold, E. reflexivity. }
  assert (L : reviews_of id st' = (reviews_of id st ++ [row])%list).
  { unfold reviews_of, st'. cbn [reviews]. rewrite filter_app. cbn.
    rewrite Z.eqb_refl. reflexivity. }
  assert (Hne : reviews_of id st' <> []).
  { rewrite L. destruct (reviews_of id st); discriminate. }
  destruct (book_summary_ok st' c id W' Hc (book_exists_int32 id st W Hex) Hne)
    as (avg & Hrun & Hdiv).
  destruct (average_of_reviews st' id W' Hne) as (avg' & Hdiv' & _ & _ & _ & Herr & Hex').
  assert (avg' = avg) by congruence. subst avg'.
  assert (Hm : map Review.rating (reviews_of id st') = ratings).
  { rewrite L, map_app. reflexivity. }
  rewrite Hm in Herr, Hex'.
  exists row, st', avg. split; [exact E|]. split; [|split; assumption].
  rewrite Hrun, L, map_app. reflexivity.
Qed.

Lemma create_review_then_book_summary_witness :
  exists row st' avg,
    run (create_review 1 (ReviewCreate.mk 9 "Good" 4) admin) library = (inr row, st') /\
    run (book_summary 1 admin) st' =
      (inr {| average_rating := avg; summary := "Great Fair Good" |}, st') /\
    Qeq avg 4.
Proof.
  destruct (create_review_then_book_summary library admin 1 (ReviewCreate.mk 9 "Good" 4)
              reachable_library eq_refl eq_refl) as (row & st' & avg & E & S & _ & X).
  - cbn. lia.
  - reflexivity.
  - vm_compute. discriminate.
  - exists row, st', avg. split; [exact E|]. split; [exact S|].
    rewrite X; [reflexivity|]. exists (4 * 2 ^ 50). reflexivity.
Defined.

(** ** Requests on one book and reads of another *)

Lemma serve_others r c st id k :
  addressed r = Some id -> k <> id ->
  find_book k (serve r c st) = find_book k st /\
  reviews_of k (serve r c st) = reviews_of k st.
Proof.
  intros Ha Hk.
  destruct (authorized c) eqn:Hc; [|rewrite serve_refused by assumption; split; reflexivity].
  rewrite serve_unfold. destruct r; try discriminate; cbn in Ha; inversion Ha; subst.
  - rewrite update_book_run by assumption.
    destruct (int32 id); [|split; reflexivity].
    destruct (find_book id st) as [|b [|b' l]] eqn:E; try (split; reflexivity).
    assert (Hb : Book.id (setattrs b book) = Some id)
      by (cbn; eapply find_book_id; exact E).
    destruct (update_book_row_others b (setattrs b book) id k st Hb Hk) as [F G].
    destruct (update_book_row b (setattrs b book) st) as [[e|u] st1]; cbn [snd] in *.
    + split; reflexivity.
    + assert (G' : reviews_of k st1 = reviews_of k st)
        by (unfold reviews_of; rewrite G; reflexivity).
      destruct (find_book id st1); split; assumption.
  - rewrite delete_book_run by assumption.
    destruct (int32 id); [|split; reflexivity].
    destruct (find_book id st) as [|b [|b' l]] eqn:E; try (split; reflexivity).
    apply (delete_book_row_others b id); [eapply find_book_id; exact E | exact Hk].
  - rewrite create_review_run by assumption.
    destruct (int32 id); [|split; reflexivity].
    destruct (find_book id st) as [|b [|b' l]] eqn:E; try (split; reflexivity).
    destruct (insert_review_cases (Review_init review id) st)
      as [[X _]|[(X & _)|(row & X & Hrow & _)]]; rewrite X; try (split; reflexivity).
    assert (G : reviews_of k (mkStore (books st) (reviews st ++ [row])
                                      (books_id_seq st) (reviews_id_seq st + 1)) =
                reviews_of k st).
    { unfold reviews_of. cbn [reviews]. rewrite filter_app. cbn. rewrite Hrow.
      cbn [Review.book_id Review_init].
      destruct (Z.eqb_spec id k); [congruence|]. apply app_nil_r. }
    destruct (Review.id row) as [n|]; [|split; [reflexivity | exact G]].
    destruct (int32 n); [|split; [reflexivity | exact G]].
    match goal with |- context [find_review n ?s] => destruct (find_review n s) end;
      (split; [reflexivity | exact G]).
Qed.

Lemma reads_of_a_book k st1 st2 c :
  find_book k st1 = find_book k st2 -> reviews_of k st1 = reviews_of k st2 ->
  fst (run (read_book k c) st1) = fst (run (read_book k c) st2) /\
  fst (run (read_reviews k c) st1) = fst (run (read_reviews k c) st2) /\
  fst (run (book_summary k c) st1) = fst (run (book_summary k c) st2).
Proof.
  intros F G. destruct (authorized c) eqn:Hc.
  - rewrite !read_book_run, !read_reviews_run, !book_summary_run by assumption.
    rewrite F, G. destruct (int32 k); [|repeat split]. repeat split.
    + destruct (find_book k st2) as [|b [|b' l]]; reflexivity.
    + destruct (reviews_of k st2); [reflexivity|].
      destruct (truediv _ _); [reflexivity|]. destruct (join _ _); reflexivity.
  - pose proof (fun st => authenticate_user_no c (SessionLocal st) Hc) as No.
    unfold run.
    rewrite !(read_book_refuses _ _ _ (No _)), !(read_reviews_refuses _ _ _ (No _)),
      !(book_summary_refuses _ _ _ (No _)).
    repeat split.
Qed.

(** X12.  A request addressed to one book (an update, a delete, a new
    review) never shows in what is read for another: for every other key,
    [read_book], [read_reviews] and [book_summary] answer after the request
    what they answered before it.  This holds on every store and whether or
    not the request went through. *)
Theorem other_books_are_unaffected r c st id k c' :
  addressed r = Some id -> k <> id ->
  fst (run (read_book k c') (serve r c st)) = fst (run (read_book k c') st) /\
  fst (run (read_reviews k c') (serve r c st)) = fst (run (read_reviews k c') st) /\
  fst (run (book_summary k c') (serve r c st)) = fst (run (book_summary k c') st).
Proof.
  intros Ha Hk. destruct (serve_others r c st id k Ha Hk) as [F G].
  apply reads_of_a_book; assumption.
Qed.

Lemma other_books_are_unaffected_witness :
  fst (run (read_book 2 admin)
         (serve (DELETE_book 1) admin (serve (POST_books dune) admin library))) =
  fst (run (read_book 2 admin) (serve (POST_books dune) admin library)).
Proof.
  apply (other_books_are_unaffected (DELETE_book 1) admin
           (serve (POST_books dune) admin library) 1 2 admin);
    [reflexivity | lia].
Defined.

(** ** Looking a book up *)

(** X13.  On a reachable store [read_book] answers with a record exactly when
    that record is the row of the table that carries the key: the lookup
    never misses a stored book, never returns another book's row, and is never
    ambiguous. *)
Theorem read_book_finds_the_row st c id b :
  reachable st -> authorized c = true ->
  (run (read_book id c) st = (inr b, st) <-> In b (books st) /\ Book.id b = Some id).
Proof.
  intros R Hc. apply reachable_wf in R.
  rewrite read_book_run by assumption. split.
  - intros E. destruct (int32 id); [|discriminate].
    destruct (find_book id st) as [|x [|y l]] eqn:F; try discriminate.
    inversion E; subst x. split; [eapply find_book_In | eapply find_book_id]; exact F.
  - intros [Hin Hb].
    assert (Hf : In b (find_book id st)).
    { apply filter_In. split; [exact Hin | apply col_eqb_true, Hb]. }
    assert (Hex : book_exists id st = true).
    { apply book_exists_find. intros F. rewrite F in Hf. destruct Hf. }
    rewrite (book_exists_int32 id st R Hex).
    destruct (find_book_unique id st R) as [F|[x F]]; rewrite F in Hf |- *.
    + destruct Hf.
    + destruct Hf as [->|[]]. reflexivity.
Qed.

Lemma read_book_finds_the_row_witness :
  In (Book.mk (Some 1) "Dune" "Herbert" (Some "SF") (Some 1965) None) (books library) /\
  Book.id (Book.mk (Some 1) "Dune" "Herbert" (Some "SF") (Some 1965) None) = Some 1.
Proof.
  apply (read_book_finds_the_row library admin 1 _ reachable_library eq_refl).
  reflexivity.
Defined.
